(** * update_readme_from_csv: the README table generator

    A shallow embedding of [scripts/update_readme_from_csv.py] and the
    properties of its record loader, row formatter, marker splicer and
    entry point.

    Conventions of the model.
    - A Python [str] is a sequence of code points.  The model keeps the code
      points below 256, which [ascii] represents one to one; [isspace],
      [isdigit] and [repr] are Python's tables restricted to that range.
    - The rows that [csv.reader] yields for a file are the input of the
      loader; tokenising the file text is the [csv] module's business.
    - The clock ([datetime.utcnow]) is an argument.
    - Exceptions are the left summand of a sum type.
    - Record dictionaries live in a store indexed by locations; the caller's
      list is a list of locations, so that in-place updates are visible.
    - The README is a text file that can be read and written: it is not a
      directory, it holds valid UTF-8 and its directory exists.  Reading it
      turns CR and CRLF into a newline; writing stores the text as it is
      ([os.linesep] is a newline). *)

From Stdlib Require Import Ascii String.
From Stdlib Require Import List Arith Lia Bool Permutation Sorted.
From Stdlib Require DecimalString.
Import ListNotations.

Set Implicit Arguments.

(* ================================================================== *)
(** * Part I: the model *)
(* ================================================================== *)

(** ** Strings *)

Definition str := list ascii.

Definition lit (s : string) : str := list_ascii_of_string s.

Definition code (c : ascii) : nat := nat_of_ascii c.

Definition chr (n : nat) : ascii := ascii_of_nat n.

Definition nl : str := [chr 10].

Definition ascii_eqb (a b : ascii) : bool := Ascii.eqb a b.

Fixpoint str_eqb (a b : str) : bool :=
  match a, b with
  | [], [] => true
  | x :: a', y :: b' => ascii_eqb x y && str_eqb a' b'
  | _, _ => false
  end.

(** [a < b] on [str]: lexicographic on code points. *)
Fixpoint str_ltb (a b : str) : bool :=
  match a, b with
  | _, [] => false
  | [], _ :: _ => true
  | x :: a', y :: b' =>
      if code x <? code y then true
      else if code y <? code x then false
      else str_ltb a' b'
  end.

Definition mem_char (c : ascii) (s : str) : bool := existsb (ascii_eqb c) s.

Definition mem_str (x : str) (l : list str) : bool := existsb (str_eqb x) l.

(** [str.isspace] for one code point. *)
Definition isspace_char (c : ascii) : bool :=
  let n := code c in
  ((9 <=? n) && (n <=? 13)) || ((28 <=? n) && (n <=? 32))
  || (n =? 133) || (n =? 160).

(** [str.isdigit] for one code point: the decimal digits and the
    superscript digits two, three and one. *)
Definition isdigit_char (c : ascii) : bool :=
  let n := code c in
  ((48 <=? n) && (n <=? 57)) || (n =? 178) || (n =? 179) || (n =? 185).

(** [s.isdigit()]: every character is a digit and there is at least one. *)
Definition isdigit (s : str) : bool :=
  match s with
  | [] => false
  | _ => forallb isdigit_char s
  end.

Fixpoint lstrip (s : str) : str :=
  match s with
  | [] => []
  | c :: t => if isspace_char c then lstrip t else s
  end.

Definition rstrip (s : str) : str := rev (lstrip (rev s)).

Definition strip (s : str) : str := rstrip (lstrip s).

(** [sep.join(l)] *)
Fixpoint join (sep : str) (l : list str) : str :=
  match l with
  | [] => []
  | [x] => x
  | x :: t => x ++ sep ++ join sep t
  end.

Fixpoint startswith (s p : str) : bool :=
  match p, s with
  | [], _ => true
  | _ :: _, [] => false
  | x :: p', y :: s' => ascii_eqb x y && startswith s' p'
  end.

Definition endswith (s p : str) : bool := startswith (rev s) (rev p).

(** [s.find(m)]: the index of the first occurrence. *)
Fixpoint find (m s : str) : option nat :=
  if startswith s m then Some 0
  else match s with
       | [] => None
       | _ :: t => option_map S (find m t)
       end.

(** [m in s] *)
Definition contains (m s : str) : bool :=
  match find m s with Some _ => true | None => false end.

(** The number of positions of [s] at which [m] occurs. *)
Fixpoint count (m s : str) : nat :=
  (if startswith s m then 1 else 0) +
  match s with
  | [] => 0
  | _ :: t => count m t
  end.

(** [s[i:j]] for [0 <= i <= j]. *)
Definition slice (i j : nat) (s : str) : str := firstn (j - i) (skipn i s).

(** [s.replace(c, r)] for a one-character pattern [c]. *)
Definition replace_char (c : ascii) (r : str) (s : str) : str :=
  flat_map (fun x => if ascii_eqb x c then r else [x]) s.

(** ** Exceptions *)

Inductive exn : Type :=
| FileNotFoundError (msg : str)
| ValueError (msg : str)
| KeyError (key : str)
| TypeError
| IndexError.

Definition res (A : Type) : Type := (exn + A)%type.

Definition ret {A : Type} (a : A) : res A := inr a.

Definition raise {A : Type} (e : exn) : res A := inl e.

Definition bind {A B : Type} (m : res A) (k : A -> res B) : res B :=
  match m with
  | inl e => inl e
  | inr a => k a
  end.

Notation "m >>= k" := (bind m k) (at level 50, left associativity).

Fixpoint mapM {A B : Type} (f : A -> res B) (l : list A) : res (list B) :=
  match l with
  | [] => ret []
  | a :: t => f a >>= fun b => mapM f t >>= fun bs => ret (b :: bs)
  end.

(** ** Splitting *)

(** [s.split(sep)] cuts at the successive first occurrences; [fuel] bounds
    the number of cuts. *)
Fixpoint split_from (fuel : nat) (sep s : str) : list str :=
  match fuel with
  | 0 => [s]
  | S fuel' =>
      match find sep s with
      | None => [s]
      | Some i => firstn i s :: split_from fuel' sep (skipn (i + length sep) s)
      end
  end.

Definition split (sep s : str) : res (list str) :=
  match sep with
  | [] => raise (ValueError (lit "empty separator"))
  | _ => ret (split_from (length s) sep s)
  end.

(** [l[i]] *)
Definition index {A : Type} (l : list A) (i : nat) : res A :=
  match nth_error l i with
  | Some a => ret a
  | None => raise IndexError
  end.

(** ** Constants of the script *)

Definition START : str := lit "<!-- PROJECTS_TABLE:START -->".
Definition END : str := lit "<!-- PROJECTS_TABLE:END -->".

Definition REQUIRED_COLS : list str :=
  [lit "Project"; lit "Date"; lit "Tools"; lit "Tags"; lit "Description";
   lit "Link"].

(** ** Marker splicer *)

Definition insert_between_markers (readme_text block : str)
    (start_marker end_marker : str) : res str :=
  let section := start_marker ++ nl ++ block ++ nl ++ end_marker in
  if contains start_marker readme_text && contains end_marker readme_text then
    split start_marker readme_text >>= fun parts0 =>
    index parts0 0 >>= fun p0 =>
    let pre := rstrip p0 in
    split end_marker readme_text >>= fun parts1 =>
    index parts1 1 >>= fun p1 =>
    let post := lstrip p1 in
    ret (pre ++ section ++ post)
  else
    let readme_text' :=
      if negb (str_eqb readme_text []) && negb (endswith readme_text (nl ++ nl))
      then readme_text ++ nl
      else readme_text in
    ret (readme_text' ++ nl ++ section ++ nl).

(** ** Records *)

(** A value stored in a record: [None] or a [str]. *)
Definition value := option str.

(** A [dict] as [csv.DictReader] builds it: the string keys in insertion
    order, and under the key [None] (the reader's [restkey]) the surplus
    cells of a row that is longer than the header, when there are any. *)
Record dict : Type := mkDict {
  items : list (str * value);
  rest : option (list str)
}.

Definition empty_dict : dict := mkDict [] None.

Fixpoint assoc_lookup (k : str) (l : list (str * value)) : option value :=
  match l with
  | [] => None
  | (k', v) :: t => if str_eqb k k' then Some v else assoc_lookup k t
  end.

(** [d[k] = v]: an existing key keeps its place, a new key goes last. *)
Fixpoint assoc_set (k : str) (v : value) (l : list (str * value))
    : list (str * value) :=
  match l with
  | [] => [(k, v)]
  | (k', v') :: t =>
      if str_eqb k k' then (k, v) :: t else (k', v') :: assoc_set k v t
  end.

Definition dict_lookup (d : dict) (k : str) : option value :=
  assoc_lookup k (items d).

(** [d.get(k, default)] *)
Definition dict_get (d : dict) (k : str) (default : value) : value :=
  match dict_lookup d k with
  | Some v => v
  | None => default
  end.

Definition dict_set (d : dict) (k : str) (v : value) : dict :=
  mkDict (assoc_set k v (items d)) (rest d).

(** [d[k]] *)
Definition dict_item (d : dict) (k : str) : res value :=
  match dict_lookup d k with
  | Some v => ret v
  | None => raise (KeyError k)
  end.

(** [s or ""] *)
Definition or_empty (v : value) : str :=
  match v with
  | Some s => s
  | None => []
  end.

(** ** Record loader *)

(** [str.isprintable] for one code point. *)
Definition isprintable_char (c : ascii) : bool :=
  let n := code c in
  ((32 <=? n) && (n <=? 126)) || ((161 <=? n) && negb (n =? 173)).

Definition hex_digit (n : nat) : ascii :=
  nth n (lit "0123456789abcdef") (chr 48).

Definition hex2 (n : nat) : str := [hex_digit (n / 16); hex_digit (n mod 16)].

Definition quote1 : ascii := chr 39.
Definition quote2 : ascii := chr 34.
Definition backslash : ascii := chr 92.

Definition repr_char (q c : ascii) : str :=
  let n := code c in
  if ascii_eqb c q || ascii_eqb c backslash then [backslash; c]
  else if n =? 9 then [backslash; chr 116]
  else if n =? 10 then [backslash; chr 110]
  else if n =? 13 then [backslash; chr 114]
  else if isprintable_char c then [c]
  else backslash :: chr 120 :: hex2 n.

(** [repr] of a [str]: single quotes, unless the string has a single quote
    and no double quote. *)
Definition repr_str (s : str) : str :=
  let q := if mem_char quote1 s && negb (mem_char quote2 s)
           then quote2 else quote1 in
  q :: flat_map (repr_char q) s ++ [q].

(** [str] of a list of [str]. *)
Definition repr_list (l : list str) : str :=
  lit "[" ++ join (lit ", ") (map repr_str l) ++ lit "]".

(** [reader.fieldnames]: the first row, [None] for an empty file. *)
Definition fieldnames (file : list (list str)) : option (list str) :=
  match file with
  | [] => None
  | h :: _ => Some h
  end.

(** The row dictionary of [DictReader.__next__]. *)
Definition dict_of_row (names : list str) (row : list str) : dict :=
  let d := fold_left (fun acc kv => assoc_set (fst kv) (Some (snd kv)) acc)
                     (combine names row) [] in
  let lf := length names in
  let lr := length row in
  if lf <? lr then mkDict d (Some (skipn lf row))
  else mkDict (fold_left (fun acc k => assoc_set k None acc) (skipn lr names) d)
              None.

Definition is_empty_row (row : list str) : bool :=
  match row with
  | [] => true
  | _ => false
  end.

(** The rows the reader yields after the header; it skips empty rows. *)
Definition reader_rows (file : list (list str)) : list dict :=
  match file with
  | [] => []
  | names :: data =>
      map (dict_of_row names) (filter (fun r => negb (is_empty_row r)) data)
  end.

Definition missing_cols (cols : list str) : list str :=
  filter (fun c => negb (mem_str c cols)) REQUIRED_COLS.

(** [file] is [None] when the path does not exist. *)
Definition read_csv_rows (csv_path : str) (file : option (list (list str)))
    : res (list dict) :=
  match file with
  | None => raise (FileNotFoundError (lit "CSV not found: " ++ csv_path))
  | Some f =>
      let cols := match fieldnames f with Some l => l | None => [] end in
      let missing := missing_cols cols in
      match missing with
      | _ :: _ =>
          raise (ValueError (lit "CSV missing required columns: "
                             ++ repr_list missing ++ lit ". Found: "
                             ++ repr_list cols))
      | [] => ret (reader_rows f)
      end
  end.

(** ** Row formatter *)

Definition normalize_date_for_sort (d : value) : str :=
  let d := strip (or_empty d) in
  if (length d =? 4) && isdigit d then d ++ lit "-12"
  else if (length d =? 7)
          && match nth_error d 4 with
             | Some c => ascii_eqb c (chr 45)
             | None => false
             end
          && isdigit (slice 0 4 d) && isdigit (slice 5 7 d)
  then d
  else lit "0000-00".

Definition esc (s : value) : str :=
  strip (replace_char (chr 124) [backslash; chr 124] (or_empty s)).

(** The clock reading of [datetime.utcnow()]. *)
Record datetime : Type := mkDatetime {
  year : nat; month : nat; day : nat;
  hour : nat; minute : nat; second : nat
}.

Definition digit (n : nat) : ascii := chr (48 + n mod 10).

Definition pad2 (n : nat) : str := [digit (n / 10); digit n].

Definition pad4 (n : nat) : str :=
  [digit (n / 1000); digit (n / 100); digit (n / 10); digit n].

(** [now.strftime("%Y-%m-%d %H:%M UTC")] *)
Definition strftime (now : datetime) : str :=
  pad4 (year now) ++ lit "-" ++ pad2 (month now) ++ lit "-" ++ pad2 (day now)
  ++ lit " " ++ pad2 (hour now) ++ lit ":" ++ pad2 (minute now) ++ lit " UTC".

Definition header : str :=
  lit "| Project | Date | Tools | Tags | Description |" ++ nl
  ++ lit "|---|---|---|---|---|".

Definition footer (now : datetime) : str :=
  lit "_Last updated: " ++ strftime now ++ lit "_".

Definition render_row (r : dict) : str :=
  let name := esc (dict_get r (lit "Project") (Some [])) in
  let link := esc (dict_get r (lit "Link") (Some [])) in
  let date := esc (dict_get r (lit "Date") (Some [])) in
  let tools := esc (dict_get r (lit "Tools") (Some [])) in
  let tags := esc (dict_get r (lit "Tags") (Some [])) in
  let desc := esc (dict_get r (lit "Description") (Some [])) in
  let project_md :=
    match link with
    | _ :: _ => lit "**[" ++ name ++ lit "](" ++ link ++ lit ")**"
    | [] => lit "**" ++ name ++ lit "**"
    end in
  lit "| " ++ project_md ++ lit " | " ++ date ++ lit " | " ++ tools
  ++ lit " | " ++ tags ++ lit " | " ++ desc ++ lit " |".

(** ** The store *)

Definition loc := nat.

Definition heap := loc -> dict.

Definition upd (h : heap) (l : loc) (d : dict) : heap :=
  fun l' => if l' =? l then d else h l'.

(** ** Sorting *)

(** [list.sort(key=..., reverse=True)]: descending and stable.  The keys are
    computed first; an element goes in front of the first element whose key
    is not greater than its own. *)
Fixpoint insert_desc {A : Type} (x : str * A) (l : list (str * A))
    : list (str * A) :=
  match l with
  | [] => [x]
  | y :: t => if str_ltb (fst x) (fst y) then y :: insert_desc x t
              else x :: y :: t
  end.

Fixpoint sort_desc {A : Type} (l : list (str * A)) : list (str * A) :=
  match l with
  | [] => []
  | x :: t => insert_desc x (sort_desc t)
  end.

Definition SORT_DATE : str := lit "_sort_date".

(** The key function [lambda x: x["_sort_date"]]; the keys are compared as
    strings. *)
Definition sort_date_of (d : dict) : res str :=
  dict_item d SORT_DATE >>= fun v =>
  match v with
  | Some s => ret s
  | None => raise TypeError
  end.

Definition set_sort_date (h : heap) (r : loc) : heap :=
  upd h r (dict_set (h r) SORT_DATE
             (Some (normalize_date_for_sort
                      (dict_get (h r) (lit "Date") (Some []))))).

(** [build_table] returns the block together with the store and the caller's
    list as the call leaves them. *)
Definition build_table (now : datetime) (h : heap) (rows : list loc)
    : res (str * heap * list loc) :=
  let h1 := fold_left set_sort_date rows h in
  mapM (fun r => sort_date_of (h1 r)) rows >>= fun keys =>
  let rows1 := map snd (sort_desc (combine keys rows)) in
  let lines := header :: map (fun r => render_row (h1 r)) rows1 in
  let lines := lines ++ [footer now] in
  ret (join nl lines, h1, rows1).

(** ** Entry point *)

(** The files the run reads and writes: the rows of the CSV file and the
    text that the README holds, [None] for a path that does not exist.  A
    README that exists is a regular file of valid UTF-8 that can be read and
    written, and one that does not exist can be created: the runs on which
    [read_text] or [write_text] raises are outside this model. *)
Record files : Type := mkFiles {
  csv_file : option (list (list str));
  readme_file : option str
}.

Definition alloc (rows : list dict) : heap := fun l => nth l rows empty_dict.

(** What reading in text mode makes of the text of a file: CRLF and a lone
    CR become a newline. *)
Fixpoint universal_newlines (s : str) : str :=
  match s with
  | [] => []
  | c :: t =>
      if ascii_eqb c (chr 13)
      then match t with
           | c' :: t' =>
               if ascii_eqb c' (chr 10) then chr 10 :: universal_newlines t'
               else chr 10 :: universal_newlines t
           | [] => [chr 10]
           end
      else c :: universal_newlines t
  end.

(** The text of the README as the run reads it: empty when the path does
    not exist, [readme_path.read_text(encoding="utf-8")] otherwise. *)
Definition read_readme (fs : files) : str :=
  match readme_file fs with
  | None => []
  | Some t => universal_newlines t
  end.

(** [main] without [--dry-run] and [--verbose]: the files after the run and
    the line printed.  The text compared and spliced is the text as read;
    the text written is stored as it is. *)
Definition main (now : datetime) (csv_path : str) (fs : files)
    : res (files * str) :=
  read_csv_rows csv_path (csv_file fs) >>= fun rows =>
  build_table now (alloc rows) (seq 0 (length rows)) >>= fun out =>
  let table_block := fst (fst out) in
  let readme_text := read_readme fs in
  insert_between_markers readme_text table_block START END >>= fun new_text =>
  if negb (str_eqb new_text readme_text)
  then ret (mkFiles (csv_file fs) (Some new_text),
            lit "README updated from CSV.")
  else ret (fs, lit "No README changes detected.").

(** ** Notions used in the statements *)

(** The marked section the splicer writes. *)
Definition section_of (block : str) : str :=
  START ++ nl ++ block ++ nl ++ END.

(** Neither sentinel occurs in [s]. *)
Definition sentinel_free (s : str) : Prop :=
  count START s = 0 /\ count END s = 0.

(** [text] is [before], the first start sentinel, [between], the only end
    sentinel and [after]. *)
Definition managed (text before between after : str) : Prop :=
  text = before ++ START ++ between ++ END ++ after
  /\ count START before = 0 /\ count END before = 0
  /\ count END between = 0 /\ count END after = 0.

(** A document of the data model: no sentinel at all, or one start sentinel
    followed by one end sentinel. *)
Definition document (text : str) : Prop :=
  sentinel_free text
  \/ exists before between after,
       text = before ++ START ++ between ++ END ++ after
       /\ sentinel_free before /\ sentinel_free between
       /\ sentinel_free after.

Definition all_space (w : str) : Prop := forallb isspace_char w = true.

(** The number of newline characters that end [s]. *)
Fixpoint leading_newlines (s : str) : nat :=
  match s with
  | c :: t => if ascii_eqb c (chr 10) then S (leading_newlines t) else 0
  | [] => 0
  end.

Definition trailing_newlines (s : str) : nat := leading_newlines (rev s).

(** A pattern that has no second [<], no [>] before its end and no
    newline: both sentinels are of this kind. *)
Definition clean (m : str) : Prop :=
  m <> [] /\ ~ In (chr 60) (tl m) /\ ~ In (chr 62) (removelast m)
  /\ ~ In (chr 10) m.

Definition is_sentinel (w : str) : Prop := w = START \/ w = END.

(** What the splicer puts between the prior content and a section that it
    appends. *)
Definition separator (text : str) : str :=
  if str_eqb text [] || endswith text (nl ++ nl) then nl else nl ++ nl.

(** [out] is [text] with the section appended, one blank line apart when
    [text] is not empty and does not end in a blank line. *)
Definition appended_one_blank_line_apart (text block out : str) : Prop :=
  exists gap,
    out = text ++ gap ++ section_of block ++ nl
    /\ (text <> [] -> endswith text (nl ++ nl) = false ->
        trailing_newlines (text ++ gap) = 2).

(** Each sentinel occurs exactly once. *)
Definition one_region (out : str) : Prop :=
  count START out = 1 /\ count END out = 1.

(** The sort key of the record at [r]. *)
Definition sort_key (h : heap) (r : loc) : str :=
  normalize_date_for_sort (dict_get (h r) (lit "Date") (Some [])).

(** The record at [r] once [build_table] has stored its sort key. *)
Definition keyed (h : heap) (r : loc) : dict :=
  dict_set (h r) SORT_DATE (Some (sort_key h r)).

(** The descending stable sort on the elements themselves, for a key
    function [key]. *)
Fixpoint insert_by {A : Type} (key : A -> str) (x : A) (l : list A) : list A :=
  match l with
  | [] => [x]
  | y :: t => if str_ltb (key x) (key y) then y :: insert_by key x t
              else x :: y :: t
  end.

Fixpoint sort_by {A : Type} (key : A -> str) (l : list A) : list A :=
  match l with
  | [] => []
  | x :: t => insert_by key x (sort_by key t)
  end.

(** [a] may stand before [b] in descending order of the keys. *)
Definition desc {A : Type} (key : A -> str) (a b : A) : Prop :=
  str_ltb (key a) (key b) = false.

(** The field names the file declares. *)
Definition declared (f : list (list str)) : list str :=
  match fieldnames f with
  | Some l => l
  | None => []
  end.

(** [c] occurs in [msg]. *)
Definition mentions (msg c : str) : Prop := exists x y, msg = x ++ c ++ y.

(** Every record maps every required field name to a string. *)
Definition fields_are_strings (rows : list dict) : Prop :=
  forall r c, In r rows -> In c REQUIRED_COLS ->
    exists s, dict_lookup r c = Some (Some s).

(** The footer follows a blank line. *)
Definition footer_own_paragraph (now : datetime) (block : str) : Prop :=
  exists body, block = body ++ nl ++ nl ++ footer now.

Definition is_ascii_digit (c : ascii) : bool :=
  (48 <=? code c) && (code c <=? 57).

(** [YYYY-MM-DD HH:MM UTC] *)
Definition is_timestamp (s : str) : bool :=
  match s with
  | [y1; y2; y3; y4; s1; m1; m2; s2; d1; d2; s3; h1; h2; s4; n1; n2;
     s5; u; t; c] =>
      forallb is_ascii_digit [y1; y2; y3; y4; m1; m2; d1; d2; h1; h2; n1; n2]
      && str_eqb [s1; s2; s3; s4; s5; u; t; c] (lit "-- : UTC")
  | _ => false
  end.

(** [YYYY]: four digits. *)
Definition year_shape (s : str) : Prop :=
  exists a b c d,
    s = [a; b; c; d] /\ forallb isdigit_char [a; b; c; d] = true.

(** [YYYY-MM]: four digits, a hyphen, two digits. *)
Definition year_month_shape (s : str) : Prop :=
  exists a b c d m1 m2,
    s = [a; b; c; d; chr 45; m1; m2]
    /\ forallb isdigit_char [a; b; c; d; m1; m2] = true.

(** A second run on the files the first run left reports no change and
    writes nothing. *)
Definition second_run_is_noop (now : datetime) (csv_path : str) (fs : files)
    : Prop :=
  forall fs1 msg1,
    main now csv_path fs = ret (fs1, msg1) ->
    main now csv_path fs1 = ret (fs1, lit "No README changes detected.").

(** One update of a dictionary under construction. *)
Definition store (acc : list (str * value)) (kv : str * value)
    : list (str * value) :=
  assoc_set (fst kv) (snd kv) acc.

(** The updates that the reader makes for a row, in order. *)
Definition updates (names row : list str) : list (str * value) :=
  map (fun kv => (fst kv, Some (snd kv))) (combine names row)
  ++ map (fun k => (k, None)) (skipn (length row) names).

(** ** Sample data *)

Definition sample_now : datetime := mkDatetime 2024 3 7 9 5 59.

Definition sample_csv : list (list str) :=
  [REQUIRED_COLS;
   [lit "Alpha"; lit "2022"; lit "X"; lit "a"; lit "d1"; lit ""];
   [lit "Beta"; lit "2023-05"; lit "Y"; lit "b"; lit "d2"; lit "http://x"]].

(** A row with a single cell. *)
Definition ragged_csv : list (list str) := [REQUIRED_COLS; [lit "Gamma"]].

(** A header without the column [Tags]. *)
Definition no_tags_csv : list (list str) :=
  [[lit "Project"; lit "Date"; lit "Tools"; lit "Description"; lit "Link"]].

Definition sample_records : list dict := reader_rows sample_csv.

Definition sample_readme : str :=
  lit "# Portfolio" ++ nl ++ nl ++ START ++ nl ++ lit "old table" ++ nl ++ END
  ++ nl ++ nl ++ lit "Contact" ++ nl.

Definition sample_path : str := lit "projects.csv".

Definition sample_files : files :=
  mkFiles (Some sample_csv) (Some sample_readme).

(** The README does not exist yet. *)
Definition fresh_files : files := mkFiles (Some sample_csv) None.

(** A CSV file with a carriage return inside a quoted cell. *)
Definition cr_csv : list (list str) :=
  [REQUIRED_COLS;
   [lit "Alpha"; lit "2022"; lit "X"; lit "a";
    lit "one" ++ [chr 13] ++ lit "two"; lit ""]].

Definition cr_files : files := mkFiles (Some cr_csv) (Some sample_readme).

(** A README that ends with one newline and has no sentinel. *)
Definition plain_readme : str := lit "# Portfolio" ++ nl.

(** A README with a start sentinel and no end sentinel. *)
Definition start_only_readme : str := lit "# Notes" ++ nl ++ START ++ nl.

(** ** Notions used in the further properties *)

(** The pipes of [s] that no backslash precedes; [after_backslash] tells
    whether the character before [s] is a backslash. *)
Fixpoint unescaped_pipes (after_backslash : bool) (s : str) : nat :=
  match s with
  | [] => 0
  | c :: t =>
      (if ascii_eqb c (chr 124) && negb after_backslash then 1 else 0)
      + unescaped_pipes (ascii_eqb c backslash) t
  end.

(** Whether a backslash ends [s], or stands before [s] when it is empty. *)
Fixpoint ends_with_backslash (after_backslash : bool) (s : str) : bool :=
  match s with
  | [] => after_backslash
  | c :: t => ends_with_backslash (ascii_eqb c backslash) t
  end.

(** The columns that a row shows. *)
Definition shown (d : dict) (k : str) : str := or_empty (dict_get d k (Some [])).


(** The cells of a row after the project cell. *)
Definition other_cells (d : dict) : str :=
  lit " | " ++ esc (dict_get d (lit "Date") (Some []))
  ++ lit " | " ++ esc (dict_get d (lit "Tools") (Some []))
  ++ lit " | " ++ esc (dict_get d (lit "Tags") (Some []))
  ++ lit " | " ++ esc (dict_get d (lit "Description") (Some []))
  ++ lit " |".


(** The text before the first occurrence of [m]. *)
Definition before_marker (m s : str) : str :=
  match find m s with
  | Some i => firstn i s
  | None => s
  end.

(** The text after the first occurrence of [m], up to the next one. *)
Definition after_marker (m s : str) : str :=
  match find m s with
  | Some j =>
      let rest := skipn (j + length m) s in
      match find m rest with
      | Some k => firstn k rest
      | None => rest
      end
  | None => []
  end.


(** The date texts [YYYY] and [YYYY-MM] of a year and a month. *)
Definition year_text (y : nat) : str := pad4 y.

Definition month_text (y m : nat) : str := pad4 y ++ lit "-" ++ pad2 m.


(** ** The command line *)

(** The parsed arguments; the two paths are resolved and name different
    files. *)
Record args : Type := mkArgs {
  csv_arg : str;
  readme_arg : str;
  dry_run : bool;
  verbose : bool
}.

(** [str(n)] *)
Definition str_of_nat (n : nat) : str :=
  lit (DecimalString.NilEmpty.string_of_uint (Nat.to_uint n)).

Definition repr_value (v : value) : str :=
  match v with
  | None => lit "None"
  | Some s => repr_str s
  end.

(** [repr] of a record: its items in order, the key [None] last. *)
Definition repr_dict (d : dict) : str :=
  lit "{"
  ++ join (lit ", ")
       (map (fun kv => repr_str (fst kv) ++ lit ": " ++ repr_value (snd kv))
            (items d)
        ++ match rest d with
           | Some l => [lit "None: " ++ repr_list l]
           | None => []
           end)
  ++ lit "}".

Definition banner_start : str := lit "----- GENERATED TABLE START -----".
Definition banner_end : str := lit "----- GENERATED TABLE END -----".

(** The lines that [--verbose] prints before the CSV is read. *)
Definition verbose_paths (a : args) : list str :=
  if verbose a
  then [lit "[i] CSV: " ++ csv_arg a; lit "[i] README: " ++ readme_arg a]
  else [].

(** The lines that [--verbose] prints once the CSV is read. *)
Definition verbose_rows (a : args) (rows : list dict) : list str :=
  if verbose a
  then (lit "[i] Rows read: " ++ str_of_nat (length rows))
       :: match rows with
          | r :: _ => [lit "[i] First row: " ++ repr_dict r]
          | [] => []
          end
  else [].

(** [main] with its flags: the lines printed, and the files after the run
    or the exception that ends it. *)
Definition main_cli (now : datetime) (a : args) (fs : files)
    : list str * res files :=
  let out0 := verbose_paths a in
  match read_csv_rows (csv_arg a) (csv_file fs) with
  | inl e => (out0, raise e)
  | inr rows =>
      let out1 := out0 ++ verbose_rows a rows in
      match build_table now (alloc rows) (seq 0 (length rows)) with
      | inl e => (out1, raise e)
      | inr (table_block, _, _) =>
          if dry_run a
          then (out1 ++ [banner_start; table_block; banner_end], ret fs)
          else
            let readme_text := read_readme fs in
            match insert_between_markers readme_text table_block START END
            with
            | inl e => (out1, raise e)
            | inr new_text =>
                if negb (str_eqb new_text readme_text)
                then (out1 ++ [lit "README updated from CSV."],
                      ret (mkFiles (csv_file fs) (Some new_text)))
                else (out1 ++ [lit "No README changes detected."], ret fs)
            end
      end
  end.

Definition sample_args : args :=
  mkArgs sample_path (lit "README.md") true true.


(** The same arguments without [--verbose]. *)
Definition quiet (a : args) : args :=
  mkArgs (csv_arg a) (readme_arg a) (dry_run a) false.

(* ================================================================== *)
(** * Part II: properties *)
(* ================================================================== *)

(** ** Occurrences of a pattern *)

Lemma ascii_eqb_eq (a b : ascii) : ascii_eqb a b = true <-> a = b.
Proof. apply Ascii.eqb_eq. Qed.

Lemma ascii_eqb_refl (a : ascii) : ascii_eqb a a = true.
Proof. apply Ascii.eqb_refl. Qed.

Lemma ascii_eqb_neq (a b : ascii) : a <> b -> ascii_eqb a b = false.
Proof. intro H. apply Ascii.eqb_neq. exact H. Qed.

Lemma str_eqb_eq (a b : str) : str_eqb a b = true <-> a = b.
Proof.
  revert b. induction a as [|x a IH]; intros [|y b]; simpl; split; intro H;
    try reflexivity; try discriminate.
  - apply andb_true_iff in H. destruct H as [H1 H2].
    apply ascii_eqb_eq in H1. apply IH in H2. congruence.
  - injection H as -> ->. rewrite ascii_eqb_refl. simpl. apply IH. reflexivity.
Qed.

Lemma str_eqb_refl (a : str) : str_eqb a a = true.
Proof. apply str_eqb_eq. reflexivity. Qed.

Lemma str_eqb_neq (a b : str) : a <> b -> str_eqb a b = false.
Proof.
  intro H. destruct (str_eqb a b) eqn:E; [|reflexivity].
  apply str_eqb_eq in E. contradiction.
Qed.

Lemma startswith_nil_r (s : str) : startswith s [] = true.
Proof. destruct s; reflexivity. Qed.

Lemma startswith_app (m y : str) : startswith (m ++ y) m = true.
Proof.
  induction m as [|a m IH]; simpl.
  - apply startswith_nil_r.
  - rewrite ascii_eqb_refl. exact IH.
Qed.

Lemma startswith_prefix (s m : str) :
  startswith s m = true -> s = m ++ skipn (length m) s.
Proof.
  revert s. induction m as [|a m IH]; intros s H; simpl in *.
  - reflexivity.
  - destruct s as [|b s]; [discriminate|].
    apply andb_true_iff in H. destruct H as [H1 H2].
    apply ascii_eqb_eq in H1. subst b. simpl. f_equal. apply IH. exact H2.
Qed.

Lemma startswith_extend (x w m : str) :
  startswith x m = true -> startswith (x ++ w) m = true.
Proof.
  revert x. induction m as [|a m IH]; intros x H.
  - apply startswith_nil_r.
  - destruct x as [|b x]; [discriminate|]. simpl in *.
    apply andb_true_iff in H. destruct H as [H1 H2].
    rewrite H1. simpl. apply IH. exact H2.
Qed.

(** A character that the pattern does not have hides what follows it. *)
Lemma startswith_cut (c : ascii) (m x y : str) :
  ~ In c m -> startswith (x ++ c :: y) m = startswith x m.
Proof.
  revert x. induction m as [|a m IH]; intros x Hc.
  - rewrite !startswith_nil_r. reflexivity.
  - destruct x as [|b x]; simpl.
    + rewrite ascii_eqb_neq; [reflexivity|].
      intro E. apply Hc. left. exact E.
    + rewrite IH; [reflexivity|]. intro E. apply Hc. right. exact E.
Qed.

Lemma startswith_cut_head (c b : ascii) (m x y : str) :
  ~ In c (tl m) ->
  startswith ((b :: x) ++ c :: y) m = startswith (b :: x) m.
Proof.
  intro Hc. destruct m as [|a m]; [reflexivity|].
  simpl in *. rewrite startswith_cut by exact Hc. reflexivity.
Qed.

Lemma removelast_cons2 (a b : ascii) (m : str) :
  removelast (a :: b :: m) = a :: removelast (b :: m).
Proof. reflexivity. Qed.

Lemma startswith_cut_last (c : ascii) (m x y : str) :
  ~ In c (removelast m) ->
  startswith ((x ++ [c]) ++ y) m = startswith (x ++ [c]) m.
Proof.
  revert x. induction m as [|a m IH]; intros x Hc.
  - rewrite !startswith_nil_r. reflexivity.
  - destruct m as [|a' m].
    + destruct x as [|b x]; simpl; rewrite ?startswith_nil_r; reflexivity.
    + rewrite removelast_cons2 in Hc.
      assert (Hc' : ~ In c (removelast (a' :: m))).
      { intro E. apply Hc. right. exact E. }
      destruct x as [|b x].
      * simpl. rewrite ascii_eqb_neq; [reflexivity|].
        intro E. apply Hc. left. exact E.
      * change (startswith (((b :: x) ++ [c]) ++ y) (a :: a' :: m))
          with (ascii_eqb a b && startswith ((x ++ [c]) ++ y) (a' :: m)).
        change (startswith ((b :: x) ++ [c]) (a :: a' :: m))
          with (ascii_eqb a b && startswith (x ++ [c]) (a' :: m)).
        rewrite IH by exact Hc'. reflexivity.
Qed.

Lemma count_nil (m : str) : m <> [] -> count m [] = 0.
Proof. destruct m; [congruence|reflexivity]. Qed.

Lemma count_cons (m : str) (b : ascii) (s : str) :
  count m (b :: s) = (if startswith (b :: s) m then 1 else 0) + count m s.
Proof. reflexivity. Qed.

Lemma count_app_head (c : ascii) (m x y : str) :
  m <> [] -> ~ In c (tl m) ->
  count m (x ++ c :: y) = count m x + count m (c :: y).
Proof.
  intros Hm Hc. induction x as [|b x IH].
  - rewrite count_nil by exact Hm. reflexivity.
  - change ((b :: x) ++ c :: y) with (b :: (x ++ c :: y)).
    rewrite (count_cons m b (x ++ c :: y)), (count_cons m b x), IH.
    change (b :: (x ++ c :: y)) with ((b :: x) ++ c :: y).
    rewrite startswith_cut_head by exact Hc. lia.
Qed.

Lemma count_app_last (c : ascii) (m x y : str) :
  m <> [] -> ~ In c (removelast m) ->
  count m ((x ++ [c]) ++ y) = count m (x ++ [c]) + count m y.
Proof.
  intros Hm Hc. induction x as [|b x IH].
  - change (([] ++ [c]) ++ y) with (c :: y). change ([] ++ [c]) with [c].
    rewrite (count_cons m c y), (count_cons m c []). rewrite (count_nil Hm).
    change (c :: y) with (([] ++ [c]) ++ y).
    rewrite startswith_cut_last by exact Hc. simpl. lia.
  - change (((b :: x) ++ [c]) ++ y) with (b :: ((x ++ [c]) ++ y)).
    change ((b :: x) ++ [c]) with (b :: (x ++ [c])).
    rewrite (count_cons m b ((x ++ [c]) ++ y)), (count_cons m b (x ++ [c])), IH.
    change (b :: ((x ++ [c]) ++ y)) with (((b :: x) ++ [c]) ++ y).
    rewrite startswith_cut_last by exact Hc.
    change ((b :: x) ++ [c]) with (b :: (x ++ [c])). lia.
Qed.

(** A character foreign to the pattern separates the counts. *)
Lemma count_app_char (c : ascii) (m x y : str) :
  m <> [] -> ~ In c m -> count m (x ++ c :: y) = count m x + count m y.
Proof.
  intros Hm Hc. destruct m as [|a m]; [congruence|].
  rewrite count_app_head; [|discriminate|].
  - rewrite count_cons. simpl startswith.
    rewrite ascii_eqb_neq; [simpl; lia|].
    intro E. apply Hc. left. exact E.
  - simpl. intro E. apply Hc. right. exact E.
Qed.

(** A word that opens with [c1] and closes with [c2], neither of which the
    pattern has inside, is counted on its own. *)
Lemma count_around (c1 c2 : ascii) (m mid x y : str) :
  m <> [] -> ~ In c1 (tl m) -> ~ In c2 (removelast m) ->
  count m (x ++ (c1 :: mid ++ [c2]) ++ y)
  = count m x + count m (c1 :: mid ++ [c2]) + count m y.
Proof.
  intros Hm H1 H2.
  change ((c1 :: mid ++ [c2]) ++ y) with (c1 :: ((mid ++ [c2]) ++ y)).
  rewrite count_app_head by assumption.
  change (c1 :: ((mid ++ [c2]) ++ y)) with (((c1 :: mid) ++ [c2]) ++ y).
  rewrite count_app_last by assumption.
  change ((c1 :: mid) ++ [c2]) with (c1 :: mid ++ [c2]). lia.
Qed.

Lemma count_suffix (m w s : str) : count m s <= count m (w ++ s).
Proof.
  induction w as [|b w IH]; [reflexivity|].
  change ((b :: w) ++ s) with (b :: (w ++ s)). rewrite count_cons. lia.
Qed.

Lemma count_prefix (m x w : str) : count m x <= count m (x ++ w).
Proof.
  induction x as [|b x IH].
  - destruct m as [|a m].
    + destruct w; simpl; lia.
    + simpl. lia.
  - change ((b :: x) ++ w) with (b :: (x ++ w)). rewrite !count_cons.
    destruct (startswith (b :: x) m) eqn:E.
    + change (b :: (x ++ w)) with ((b :: x) ++ w).
      rewrite (startswith_extend _ w _ E). lia.
    + lia.
Qed.

Lemma find_None_count (m s : str) : find m s = None <-> count m s = 0.
Proof.
  induction s as [|b s IH]; cbn [find count].
  - destruct (startswith [] m); split; intro H; try discriminate; reflexivity.
  - destruct (startswith (b :: s) m).
    + split; intro H; discriminate.
    + destruct (find m s); simpl; split; intro H; try discriminate.
      * apply IH in H. discriminate.
      * apply IH. reflexivity.
      * reflexivity.
Qed.

Lemma contains_false_count (m s : str) : contains m s = false <-> count m s = 0.
Proof.
  unfold contains. rewrite <- find_None_count.
  destruct (find m s); split; intro H; try discriminate; reflexivity.
Qed.

Lemma contains_true_count (m s : str) : contains m s = true <-> count m s <> 0.
Proof.
  rewrite <- contains_false_count.
  destruct (contains m s); split; intro H; try congruence.
Qed.

Lemma find_here (m y : str) : find m (m ++ y) = Some 0.
Proof.
  destruct (m ++ y) as [|b s] eqn:E; cbn [find]; rewrite <- E;
    rewrite startswith_app; reflexivity.
Qed.

Lemma startswith_false_count (m s : str) :
  count m s = 0 -> startswith s m = false.
Proof.
  destruct s as [|b s]; cbn [count];
    match goal with |- context [startswith ?t m] =>
      destruct (startswith t m) end; intro H; try reflexivity; discriminate.
Qed.

(** The first occurrence after a prefix that has none, when the pattern's
    first character does not occur again inside the pattern. *)
Lemma find_app_head (c : ascii) (m x y : str) :
  ~ In c (tl m) -> count m x = 0 ->
  find m (x ++ c :: y) = option_map (Nat.add (length x)) (find m (c :: y)).
Proof.
  intros Hc. induction x as [|b x IH]; intro H0.
  - simpl app. simpl length. destruct (find m (c :: y)); reflexivity.
  - rewrite count_cons in H0.
    assert (Hs : startswith (b :: x) m = false).
    { destruct (startswith (b :: x) m); [discriminate|reflexivity]. }
    assert (Hx : count m x = 0) by lia.
    specialize (IH Hx).
    remember (find m (c :: y)) as f eqn:Ef. clear Ef.
    change ((b :: x) ++ c :: y) with (b :: (x ++ c :: y)).
    cbn [find].
    change (b :: (x ++ c :: y)) with ((b :: x) ++ c :: y).
    rewrite startswith_cut_head by exact Hc. rewrite Hs, IH.
    destruct f; reflexivity.
Qed.

Lemma find_marker (c : ascii) (t x y : str) :
  ~ In c t -> count (c :: t) x = 0 ->
  find (c :: t) (x ++ (c :: t) ++ y) = Some (length x).
Proof.
  intros Hc H0.
  change ((c :: t) ++ y) with (c :: (t ++ y)).
  rewrite find_app_head by assumption.
  change (c :: (t ++ y)) with ((c :: t) ++ y).
  rewrite find_here. simpl. f_equal. lia.
Qed.

(** ** Stripping *)

Lemma lstrip_split (s : str) :
  exists w, s = w ++ lstrip s /\ all_space w.
Proof.
  induction s as [|c s [w [E Hw]]].
  - exists []. split; reflexivity.
  - simpl. destruct (isspace_char c) eqn:Ec.
    + exists (c :: w). split.
      * simpl. f_equal. exact E.
      * unfold all_space. simpl. rewrite Ec. exact Hw.
    + exists []. split; reflexivity.
Qed.

Lemma all_space_rev (w : str) : all_space w -> all_space (rev w).
Proof.
  unfold all_space. rewrite !forallb_forall. intros H c Hc.
  apply H. apply in_rev. exact Hc.
Qed.

Lemma rstrip_split (s : str) :
  exists w, s = rstrip s ++ w /\ all_space w.
Proof.
  destruct (lstrip_split (rev s)) as [w [E Hw]].
  exists (rev w). split.
  - unfold rstrip. rewrite <- rev_app_distr, <- E, rev_involutive. reflexivity.
  - apply all_space_rev. exact Hw.
Qed.

Lemma lstrip_idem (s : str) : lstrip (lstrip s) = lstrip s.
Proof.
  induction s as [|c s IH]; [reflexivity|].
  simpl. destruct (isspace_char c) eqn:Ec; [exact IH|].
  simpl. rewrite Ec. reflexivity.
Qed.

Lemma rstrip_idem (s : str) : rstrip (rstrip s) = rstrip s.
Proof. unfold rstrip. rewrite rev_involutive, lstrip_idem. reflexivity. Qed.

Lemma count_lstrip (m s : str) : count m s = 0 -> count m (lstrip s) = 0.
Proof.
  intro H. destruct (lstrip_split s) as [w [E _]].
  pose proof (count_suffix m w (lstrip s)) as L. rewrite <- E in L. lia.
Qed.

Lemma count_rstrip (m s : str) : count m s = 0 -> count m (rstrip s) = 0.
Proof.
  intro H. destruct (rstrip_split s) as [w [E _]].
  pose proof (count_prefix m (rstrip s) w) as L. rewrite <- E in L. lia.
Qed.

(** ** Splitting *)

Lemma firstn_length_app {A : Type} (x y : list A) :
  firstn (length x) (x ++ y) = x.
Proof. induction x as [|a x IH]; simpl; [reflexivity|]. f_equal. exact IH. Qed.

Lemma skipn_length_app {A : Type} (x y : list A) :
  skipn (length x) (x ++ y) = y.
Proof. induction x as [|a x IH]; simpl; [reflexivity|]. exact IH. Qed.

Lemma find_nil (m : str) : m <> [] -> find m [] = None.
Proof. destruct m; [congruence|reflexivity]. Qed.

Lemma find_Some_nonempty (m s : str) (i : nat) :
  m <> [] -> find m s = Some i -> s <> [].
Proof. intros Hm H E. subst s. rewrite find_nil in H by exact Hm. discriminate. Qed.

(** Fuel beyond the length of the string does not change the result. *)
Lemma split_from_fuel (sep : str) :
  sep <> [] ->
  forall fuel1 fuel2 s,
    length s <= fuel1 -> length s <= fuel2 ->
    split_from fuel1 sep s = split_from fuel2 sep s.
Proof.
  intro Hsep. induction fuel1 as [|f1 IH]; intros fuel2 s H1 H2.
  - destruct s; [|simpl in H1; lia].
    destruct fuel2; cbn [split_from]; [reflexivity|].
    rewrite find_nil by exact Hsep. reflexivity.
  - destruct fuel2 as [|f2].
    + destruct s; [|simpl in H2; lia]. cbn [split_from].
      rewrite find_nil by exact Hsep. reflexivity.
    + cbn [split_from]. destruct (find sep s) as [i|] eqn:E; [|reflexivity].
      f_equal.
      assert (Hs : s <> []) by (eapply find_Some_nonempty; eassumption).
      assert (Hl : length (skipn (i + length sep) s) < length s).
      { rewrite length_skipn.
        assert (0 < length s) by (destruct s; [congruence|simpl; lia]).
        assert (0 < length sep) by (destruct sep; [congruence|simpl; lia]).
        lia. }
      apply IH; lia.
Qed.

Lemma split_from_head (fuel : nat) (sep s : str) (i : nat) :
  find sep s = Some i ->
  split_from (S fuel) sep s
  = firstn i s :: split_from fuel sep (skipn (i + length sep) s).
Proof. intro H. cbn [split_from]. rewrite H. reflexivity. Qed.

Lemma split_from_none (fuel : nat) (sep s : str) :
  find sep s = None -> split_from fuel sep s = [s].
Proof. intro H. destruct fuel; cbn [split_from]; [|rewrite H]; reflexivity. Qed.

(** The first two pieces when the separator occurs once at [x]. *)
Lemma split_at (sep x y : str) :
  sep <> [] ->
  find sep (x ++ sep ++ y) = Some (length x) ->
  find sep y = None ->
  split sep (x ++ sep ++ y) = ret [x; y].
Proof.
  intros Hsep Hf Hy. unfold split. destruct sep as [|a sep]; [congruence|].
  f_equal.
  destruct (length (x ++ (a :: sep) ++ y)) as [|n] eqn:En.
  - rewrite !length_app in En. simpl in En. lia.
  - rewrite (split_from_head _ _ _ Hf).
    rewrite firstn_length_app.
    rewrite app_assoc, <- length_app, skipn_length_app.
    rewrite split_from_none by exact Hy. reflexivity.
Qed.

(** The first piece when the separator first occurs at [x]. *)
Lemma split_first (sep x y : str) :
  sep <> [] ->
  find sep (x ++ sep ++ y) = Some (length x) ->
  exists rest, split sep (x ++ sep ++ y) = ret (x :: rest).
Proof.
  intros Hsep Hf. unfold split. destruct sep as [|a sep]; [congruence|].
  destruct (length (x ++ (a :: sep) ++ y)) as [|n] eqn:En.
  - rewrite !length_app in En. simpl in En. lia.
  - rewrite (split_from_head _ _ _ Hf). rewrite firstn_length_app.
    eexists. reflexivity.
Qed.

(** ** The sentinels *)

Lemma mem_char_In (c : ascii) (s : str) : mem_char c s = false -> ~ In c s.
Proof.
  intros H Hin. unfold mem_char in H.
  assert (E : existsb (ascii_eqb c) s = true).
  { apply existsb_exists. exists c. split; [exact Hin|apply ascii_eqb_refl]. }
  congruence.
Qed.

Lemma START_shape : START = chr 60 :: removelast (tl START) ++ [chr 62].
Proof. vm_compute. reflexivity. Qed.

Lemma END_shape : END = chr 60 :: removelast (tl END) ++ [chr 62].
Proof. vm_compute. reflexivity. Qed.

Lemma START_clean : clean START.
Proof.
  unfold clean. repeat split; try discriminate;
    apply mem_char_In; vm_compute; reflexivity.
Qed.

Lemma END_clean : clean END.
Proof.
  unfold clean. repeat split; try discriminate;
    apply mem_char_In; vm_compute; reflexivity.
Qed.

Lemma count_START_START : count START START = 1.
Proof. vm_compute. reflexivity. Qed.

Lemma count_START_END : count START END = 0.
Proof. vm_compute. reflexivity. Qed.

Lemma count_END_START : count END START = 0.
Proof. vm_compute. reflexivity. Qed.

Lemma count_END_END : count END END = 1.
Proof. vm_compute. reflexivity. Qed.

Lemma count_word (m w x y : str) :
  clean m -> is_sentinel w ->
  count m (x ++ w ++ y) = count m x + count m w + count m y.
Proof.
  intros (Hm & Hlt & Hgt & _) [E | E]; subst w.
  - generalize START_shape. generalize (removelast (tl START)).
    intros mid ->. apply count_around; assumption.
  - generalize END_shape. generalize (removelast (tl END)).
    intros mid ->. apply count_around; assumption.
Qed.

Lemma count_word_l (m w y : str) :
  clean m -> is_sentinel w -> count m (w ++ y) = count m w + count m y.
Proof.
  intros Hm Hw. pose proof (count_word [] y Hm Hw) as H.
  destruct Hm as (Hm & _). rewrite (count_nil Hm) in H. exact H.
Qed.

Lemma count_nl (m x y : str) :
  clean m -> count m (x ++ nl ++ y) = count m x + count m y.
Proof.
  intros (Hm & _ & _ & Hnl). apply count_app_char; assumption.
Qed.

Lemma count_nl_l (m y : str) : clean m -> count m (nl ++ y) = count m y.
Proof.
  intro Hm. pose proof (count_nl [] y Hm) as H.
  destruct Hm as (Hm & _). rewrite (count_nil Hm) in H. exact H.
Qed.

Lemma count_nl_r (m x : str) : clean m -> count m (x ++ nl) = count m x.
Proof.
  intro Hm. pose proof (count_nl x [] Hm) as H. rewrite app_nil_r in H.
  destruct Hm as (Hm & _). rewrite (count_nil Hm) in H. lia.
Qed.

(** The occurrences in a document that holds a marked section. *)
Lemma count_section (m x block y : str) :
  clean m ->
  count m (x ++ section_of block ++ y)
  = count m x + count m START + count m block + count m END + count m y.
Proof.
  intro Hm. unfold section_of.
  replace (x ++ (START ++ nl ++ block ++ nl ++ END) ++ y)
    with (x ++ START ++ nl ++ block ++ nl ++ END ++ y)
    by (rewrite <- !app_assoc; reflexivity).
  rewrite (count_word x _ Hm (or_introl eq_refl)).
  rewrite (count_nl_l _ Hm), (count_nl block _ Hm).
  rewrite (count_word_l _ Hm (or_intror eq_refl)). lia.
Qed.

Lemma sentinel_free_section_body (block : str) :
  sentinel_free block -> sentinel_free (nl ++ block ++ nl).
Proof.
  intros [H1 H2]. split.
  - rewrite (count_nl_l _ START_clean), (count_nl_r _ START_clean). exact H1.
  - rewrite (count_nl_l _ END_clean), (count_nl_r _ END_clean). exact H2.
Qed.

Lemma find_START (x y : str) :
  count START x = 0 -> find START (x ++ START ++ y) = Some (length x).
Proof.
  intro H. destruct START_clean as (_ & Hlt & _).
  pose proof START_shape as E. set (mid := removelast (tl START)) in E.
  clearbody mid. revert H Hlt. rewrite E. intros H Hlt.
  apply find_marker; assumption.
Qed.

Lemma find_END (x y : str) :
  count END x = 0 -> find END (x ++ END ++ y) = Some (length x).
Proof.
  intro H. destruct END_clean as (_ & Hlt & _).
  pose proof END_shape as E. set (mid := removelast (tl END)) in E.
  clearbody mid. revert H Hlt. rewrite E. intros H Hlt.
  apply find_marker; assumption.
Qed.

(** ** Marker splicer *)

Lemma section_of_assoc (x block y : str) :
  x ++ section_of block ++ y = x ++ START ++ (nl ++ block ++ nl) ++ END ++ y.
Proof. unfold section_of. rewrite <- !app_assoc. reflexivity. Qed.

Lemma managed_count_END_front (before between : str) :
  count END before = 0 -> count END between = 0 ->
  count END (before ++ START ++ between) = 0.
Proof.
  intros H1 H2.
  rewrite (count_word before between END_clean (or_introl eq_refl)).
  rewrite count_END_START. lia.
Qed.

(** With both sentinels in place the splicer keeps the stripped text before
    the start sentinel and the stripped text after the end sentinel. *)
Lemma splice_managed (text block before between after : str) :
  managed text before between after ->
  insert_between_markers text block START END
  = ret (rstrip before ++ section_of block ++ lstrip after).
Proof.
  intros (E & Hs & He & Hm & Ha). subst text.
  assert (F1 : find START (before ++ START ++ between ++ END ++ after)
               = Some (length before)) by (apply find_START; exact Hs).
  assert (Eq : before ++ START ++ between ++ END ++ after
               = (before ++ START ++ between) ++ END ++ after)
    by (rewrite <- !app_assoc; reflexivity).
  assert (F2 : find END ((before ++ START ++ between) ++ END ++ after)
               = Some (length (before ++ START ++ between))).
  { apply find_END. apply managed_count_END_front; assumption. }
  assert (Sne : START <> []) by (destruct START_clean as (H & _); exact H).
  assert (Ene : END <> []) by (destruct END_clean as (H & _); exact H).
  destruct (split_first _ _ Sne F1) as [rest0 S0].
  assert (S1 : split END ((before ++ START ++ between) ++ END ++ after)
               = ret [before ++ START ++ between; after]).
  { apply split_at; [exact Ene|exact F2|]. apply find_None_count. exact Ha. }
  unfold insert_between_markers, contains.
  rewrite F1, S0. rewrite Eq, F2, S1.
  cbn [andb bind ret index nth_error].
  unfold section_of. reflexivity.
Qed.

(** The spliced document is again a document with a managed region. *)
Lemma managed_splice (block before after : str) :
  count START before = 0 -> count END before = 0 -> count END after = 0 ->
  count END block = 0 ->
  managed (rstrip before ++ section_of block ++ lstrip after)
          (rstrip before) (nl ++ block ++ nl) (lstrip after).
Proof.
  intros Hs He Ha Hb. unfold managed. repeat split.
  - apply section_of_assoc.
  - apply count_rstrip. exact Hs.
  - apply count_rstrip. exact He.
  - rewrite (count_nl_l _ END_clean), (count_nl_r _ END_clean). exact Hb.
  - apply count_lstrip. exact Ha.
Qed.

(** The first occurrence cuts the string, and the part before it has no
    occurrence. *)
Lemma find_Some_split (m s : str) (i : nat) :
  m <> [] -> find m s = Some i ->
  s = firstn i s ++ m ++ skipn (i + length m) s
  /\ count m (firstn i s) = 0 /\ length (firstn i s) = i.
Proof.
  intro Hm. revert i. induction s as [|b t IH]; intros i H.
  - rewrite find_nil in H by exact Hm. discriminate.
  - cbn [find] in H. destruct (startswith (b :: t) m) eqn:E.
    + injection H as <-. cbn [firstn Nat.add app].
      split; [apply startswith_prefix; exact E|].
      split; [apply count_nil; exact Hm|reflexivity].
    + destruct (find m t) as [i'|] eqn:F; [|discriminate].
      injection H as <-. destruct (IH i' eq_refl) as (E1 & E2 & E3).
      cbn [firstn Nat.add skipn app length].
      split; [f_equal; exact E1|]. split; [|f_equal; exact E3].
      rewrite count_cons, E2.
      destruct (startswith (b :: firstn i' t) m) eqn:E'; [|reflexivity].
      apply (startswith_extend _ (skipn i' t)) in E'.
      change ((b :: firstn i' t) ++ skipn i' t)
        with (b :: (firstn i' t ++ skipn i' t)) in E'.
      rewrite firstn_skipn in E'. congruence.
Qed.

(** A document with a managed region, told by where the sentinels are: the
    first start sentinel is at [i], the first end sentinel at [j], after the
    start sentinel, and the end sentinel occurs once. *)
Lemma managed_intro (text : str) (i j : nat) :
  find START text = Some i -> find END text = Some j ->
  i + length START <= j -> count END text = 1 ->
  managed text (firstn i text) (slice (i + length START) j text)
          (skipn (j + length END) text).
Proof.
  intros Fs Fe Hij Hc.
  assert (Sne : START <> []) by (destruct START_clean as (H & _); exact H).
  assert (Ene : END <> []) by (destruct END_clean as (H & _); exact H).
  destruct (@find_Some_split START text i Sne Fs) as (Es & Cs & Ls).
  destruct (@find_Some_split END text j Ene Fe) as (Ee & Ce & Le).
  set (B := firstn i text) in *.
  set (R := skipn (i + length START) text) in *.
  set (P := firstn j text) in *.
  set (A := skipn (j + length END) text) in *.
  assert (EP : P = B ++ START ++ slice (i + length START) j text).
  { unfold P, slice. fold R. rewrite Es at 1.
    rewrite firstn_app, Ls.
    rewrite (firstn_all2 (n := j) B) by lia.
    rewrite firstn_app.
    rewrite (firstn_all2 (n := j - i) START) by lia.
    replace (j - i - length START) with (j - (i + length START)) by lia.
    reflexivity. }
  unfold managed. split; [|split; [|split; [|split]]].
  - rewrite Ee at 1. rewrite EP. rewrite <- !app_assoc. reflexivity.
  - exact Cs.
  - pose proof (count_prefix END B (START ++ slice (i + length START) j text))
      as L. rewrite <- EP in L. lia.
  - pose proof (count_suffix END (B ++ START)
                  (slice (i + length START) j text)) as L.
    rewrite <- app_assoc, <- EP in L. lia.
  - rewrite Ee in Hc.
    rewrite (count_word P A END_clean (or_intror eq_refl)) in Hc.
    rewrite count_END_END in Hc. lia.
Qed.

(** Conversely, in such a document the sentinels are found where the
    decomposition puts them, and the end sentinel occurs once. *)
Lemma managed_elim (text before between after : str) :
  managed text before between after ->
  find START text = Some (length before)
  /\ find END text = Some (length (before ++ START ++ between))
  /\ count END text = 1.
Proof.
  intros (E & Hs & He & Hm & Ha). subst text.
  split; [apply find_START; exact Hs|].
  assert (C0 : count END (before ++ START ++ between) = 0)
    by (apply managed_count_END_front; assumption).
  replace (before ++ START ++ between ++ END ++ after)
    with ((before ++ START ++ between) ++ END ++ after)
    by (rewrite <- !app_assoc; reflexivity).
  split; [apply find_END; exact C0|].
  rewrite (count_word _ after END_clean (or_intror eq_refl)).
  rewrite count_END_END. lia.
Qed.

(** C1: in a document whose first start sentinel precedes its only end
    sentinel, the splicer replaces what lies between the sentinels; the text
    before the start sentinel and the text after the end sentinel come out
    as they were, less the white space that touches the sentinels. *)
Theorem insert_between_markers_frame
    (text block before between after : str) :
  managed text before between after ->
  exists w1 w2,
    all_space w1 /\ all_space w2
    /\ before = rstrip before ++ w1 /\ after = w2 ++ lstrip after
    /\ insert_between_markers text block START END
       = ret (rstrip before ++ section_of block ++ lstrip after).
Proof.
  intro H.
  destruct (rstrip_split before) as [w1 [E1 H1]].
  destruct (lstrip_split after) as [w2 [E2 H2]].
  exists w1, w2. repeat split; try assumption.
  apply splice_managed with (between := between). exact H.
Qed.

Lemma endswith_app (x p : str) : endswith (x ++ p) p = true.
Proof. unfold endswith. rewrite rev_app_distr. apply startswith_app. Qed.

Lemma append_branch (text block : str) :
  contains START text && contains END text = false ->
  insert_between_markers text block START END
  = ret (text ++ separator text ++ section_of block ++ nl).
Proof.
  intro H. unfold insert_between_markers, separator. rewrite H.
  destruct (str_eqb text []) eqn:E1; cbn [negb andb orb].
  - unfold section_of. rewrite <- !app_assoc. reflexivity.
  - destruct (endswith text (nl ++ nl)) eqn:E2; cbn [negb];
      unfold section_of; rewrite <- !app_assoc; reflexivity.
Qed.

Lemma leading_newlines_rev_text (text : str) :
  endswith text nl = false -> leading_newlines (rev text) = 0.
Proof.
  unfold endswith. destruct (rev text) as [|c r]; [reflexivity|].
  simpl. rewrite startswith_nil_r, andb_true_r. intro H.
  destruct (ascii_eqb c (chr 10)) eqn:E; [|reflexivity].
  apply ascii_eqb_eq in E. subst c. discriminate.
Qed.

Lemma endswith_two_newlines (text : str) :
  endswith text nl = false -> endswith text (nl ++ nl) = false.
Proof.
  unfold endswith. destruct (rev text) as [|c r]; [reflexivity|].
  simpl. rewrite startswith_nil_r, andb_true_r. intros ->. reflexivity.
Qed.

(** C2: when a sentinel is missing the splicer appends the section and a
    final newline after the separator; prior content that does not end in a
    newline is followed by exactly one blank line. *)
Theorem insert_between_markers_append (text block : str) :
  contains START text = false \/ contains END text = false ->
  insert_between_markers text block START END
  = ret (text ++ separator text ++ section_of block ++ nl)
  /\ (text <> [] -> endswith text nl = false ->
      separator text = nl ++ nl
      /\ trailing_newlines (text ++ separator text) = 2).
Proof.
  intro H. split.
  - apply append_branch. destruct H as [H | H]; rewrite H;
      [reflexivity|apply andb_false_r].
  - intros Hne Hnl.
    assert (Es : separator text = nl ++ nl).
    { unfold separator. rewrite (endswith_two_newlines _ Hnl).
      rewrite str_eqb_neq by exact Hne. reflexivity. }
    split; [exact Es|]. rewrite Es. unfold trailing_newlines.
    rewrite !rev_app_distr. simpl.
    rewrite (leading_newlines_rev_text _ Hnl). reflexivity.
Qed.

Lemma one_region_canonical (before between after : str) :
  sentinel_free before -> sentinel_free between -> sentinel_free after ->
  one_region (before ++ START ++ between ++ END ++ after).
Proof.
  intros [B1 B2] [M1 M2] [A1 A2]. split.
  - rewrite (count_word before _ START_clean (or_introl eq_refl)).
    rewrite (count_word between _ START_clean (or_intror eq_refl)).
    rewrite count_START_START, count_START_END. lia.
  - rewrite (count_word before _ END_clean (or_introl eq_refl)).
    rewrite (count_word between _ END_clean (or_intror eq_refl)).
    rewrite count_END_START, count_END_END. lia.
Qed.

Lemma sentinel_free_separator (text : str) :
  sentinel_free text -> sentinel_free (text ++ separator text).
Proof.
  intros [H1 H2]. unfold separator.
  destruct (str_eqb text [] || endswith text (nl ++ nl)); split;
    rewrite ?app_assoc, ?count_nl_r by (apply START_clean || apply END_clean);
    assumption.
Qed.

(** The splicer turns a document into a document with one managed region. *)
Lemma splice_document (text block : str) :
  document text -> sentinel_free block ->
  exists before between after,
    insert_between_markers text block START END
    = ret (before ++ START ++ between ++ END ++ after)
    /\ sentinel_free before /\ sentinel_free between
    /\ sentinel_free after.
Proof.
  intros [Hfree | (before & between & after & E & HB & HM & HA)] Hb.
  - exists (text ++ separator text), (nl ++ block ++ nl), nl.
    split; [|split; [|split]].
    + rewrite append_branch.
      * f_equal. rewrite <- !app_assoc. unfold section_of.
        rewrite <- !app_assoc. reflexivity.
      * destruct Hfree as [H _]. apply contains_false_count in H.
        rewrite H. reflexivity.
    + apply sentinel_free_separator. exact Hfree.
    + apply sentinel_free_section_body. exact Hb.
    + split; vm_compute; reflexivity.
  - exists (rstrip before), (nl ++ block ++ nl), (lstrip after).
    destruct HB as [B1 B2]. destruct HM as [M1 M2]. destruct HA as [A1 A2].
    split; [|split; [|split]].
    + rewrite (@splice_managed text block before between after).
      * f_equal. apply section_of_assoc.
      * unfold managed. repeat split; assumption.
    + split; apply count_rstrip; assumption.
    + apply sentinel_free_section_body. exact Hb.
    + split; apply count_lstrip; assumption.
Qed.

(** C9: for a document that has no sentinel, or one start sentinel followed
    by one end sentinel, and blocks that hold no sentinel, the output has
    each sentinel exactly once, and so has the output of a second run on
    it. *)
Theorem insert_between_markers_one_region (text block block' : str) :
  document text -> sentinel_free block -> sentinel_free block' ->
  exists out1 out2,
    insert_between_markers text block START END = ret out1
    /\ one_region out1
    /\ insert_between_markers out1 block' START END = ret out2
    /\ one_region out2.
Proof.
  intros Hd Hb Hb'.
  destruct (splice_document Hd Hb) as (B1 & M1 & A1 & E1 & HB1 & HM1 & HA1).
  assert (Hd1 : document (B1 ++ START ++ M1 ++ END ++ A1)).
  { right. exists B1, M1, A1. split; [reflexivity|].
    split; [exact HB1|]. split; [exact HM1|exact HA1]. }
  destruct (splice_document Hd1 Hb') as (B2 & M2 & A2 & E2 & HB2 & HM2 & HA2).
  exists (B1 ++ START ++ M1 ++ END ++ A1), (B2 ++ START ++ M2 ++ END ++ A2).
  split; [exact E1|]. split; [apply one_region_canonical; assumption|].
  split; [exact E2|]. apply one_region_canonical; assumption.
Qed.

(** Splicing the same block into a document with a managed region a second
    time changes nothing. *)
Lemma splice_twice (text block before between after : str) :
  managed text before between after -> count END block = 0 ->
  exists out,
    insert_between_markers text block START END = ret out
    /\ insert_between_markers out block START END = ret out.
Proof.
  intros H Hb. exists (rstrip before ++ section_of block ++ lstrip after).
  split; [apply splice_managed with (between := between); exact H|].
  destruct H as (_ & Hs & He & _ & Ha).
  rewrite (splice_managed block (managed_splice _ _ _ Hs He Ha Hb)).
  rewrite rstrip_idem, lstrip_idem. reflexivity.
Qed.

(** ** The order on strings *)

Lemma str_ltb_irrefl (a : str) : str_ltb a a = false.
Proof.
  induction a as [|x a IH]; [reflexivity|].
  simpl. rewrite Nat.ltb_irrefl. exact IH.
Qed.

Lemma str_ltb_asym (a b : str) : str_ltb a b = true -> str_ltb b a = false.
Proof.
  revert b. induction a as [|x a IH]; intros [|y b]; simpl; intro H;
    try reflexivity; try discriminate.
  destruct (code x <? code y) eqn:E1.
  - apply Nat.ltb_lt in E1.
    assert (E2 : (code y <? code x) = false) by (apply Nat.ltb_ge; lia).
    rewrite E2. reflexivity.
  - destruct (code y <? code x) eqn:E2; [discriminate|].
    apply IH. exact H.
Qed.

(** "Not smaller" is transitive. *)
Lemma str_geb_trans (a b c : str) :
  str_ltb a b = false -> str_ltb b c = false -> str_ltb a c = false.
Proof.
  revert b c. induction a as [|x a IH]; intros [|y b] [|z c]; simpl;
    intros H1 H2; try reflexivity; try discriminate.
  destruct (code x <? code y) eqn:Exy; [discriminate|].
  destruct (code y <? code z) eqn:Eyz; [discriminate|].
  apply Nat.ltb_ge in Exy. apply Nat.ltb_ge in Eyz.
  destruct (code y <? code x) eqn:Eyx.
  - apply Nat.ltb_lt in Eyx.
    assert (E : (code x <? code z) = false) by (apply Nat.ltb_ge; lia).
    assert (E' : (code z <? code x) = true) by (apply Nat.ltb_lt; lia).
    rewrite E, E'. reflexivity.
  - apply Nat.ltb_ge in Eyx.
    destruct (code z <? code y) eqn:Ezy.
    + apply Nat.ltb_lt in Ezy.
      assert (E : (code x <? code z) = false) by (apply Nat.ltb_ge; lia).
      assert (E' : (code z <? code x) = true) by (apply Nat.ltb_lt; lia).
      rewrite E, E'. reflexivity.
    + apply Nat.ltb_ge in Ezy.
      assert (E : (code x <? code z) = false) by (apply Nat.ltb_ge; lia).
      assert (E' : (code z <? code x) = false) by (apply Nat.ltb_ge; lia).
      rewrite E, E'. apply IH with (b := b); assumption.
Qed.

(** A string that is nowhere below another is not smaller. *)
Lemma str_ltb_pointwise (a b : str) :
  Forall2 (fun x y => code y <= code x) a b -> str_ltb a b = false.
Proof.
  induction 1 as [|x y a b Hxy _ IH]; [reflexivity|].
  simpl. assert (E : (code x <? code y) = false) by (apply Nat.ltb_ge; lia).
  rewrite E. destruct (code y <? code x); [reflexivity|exact IH].
Qed.

(** ** Sorting *)

Section Sorting.

Variable A : Type.
Variable key : A -> str.

Lemma insert_by_perm (x : A) (l : list A) :
  Permutation (x :: l) (insert_by key x l).
Proof.
  induction l as [|y t IH]; simpl; [apply Permutation_refl|].
  destruct (str_ltb (key x) (key y)); [|apply Permutation_refl].
  apply Permutation_trans with (y :: x :: t); [apply perm_swap|].
  apply perm_skip. exact IH.
Qed.

Lemma sort_by_perm (l : list A) : Permutation l (sort_by key l).
Proof.
  induction l as [|x t IH]; simpl; [apply perm_nil|].
  apply Permutation_trans with (x :: sort_by key t).
  - apply perm_skip. exact IH.
  - apply insert_by_perm.
Qed.

Lemma insert_by_sorted (x : A) (l : list A) :
  StronglySorted (desc key) l -> StronglySorted (desc key) (insert_by key x l).
Proof.
  induction 1 as [|y t Hs IH Hy]; simpl.
  - constructor; constructor.
  - destruct (str_ltb (key x) (key y)) eqn:E.
    + constructor; [exact IH|].
      apply Forall_forall. intros z Hz.
      apply (Permutation_in z (Permutation_sym (insert_by_perm x t))) in Hz.
      destruct Hz as [<- | Hz].
      * unfold desc. apply str_ltb_asym. exact E.
      * rewrite Forall_forall in Hy. apply Hy. exact Hz.
    + constructor; [constructor; assumption|].
      constructor; [exact E|].
      rewrite Forall_forall in *. intros z Hz. unfold desc in *.
      apply str_geb_trans with (b := key y); [exact E|]. apply Hy. exact Hz.
Qed.

Lemma sort_by_sorted (l : list A) : StronglySorted (desc key) (sort_by key l).
Proof.
  induction l as [|x t IH]; simpl; [constructor|].
  apply insert_by_sorted. exact IH.
Qed.

Lemma insert_by_filter (k : str) (x : A) (l : list A) :
  filter (fun a => str_eqb (key a) k) (insert_by key x l)
  = filter (fun a => str_eqb (key a) k) (x :: l).
Proof.
  induction l as [|y t IH]; [reflexivity|].
  cbn [insert_by]. destruct (str_ltb (key x) (key y)) eqn:E; [|reflexivity].
  cbn [filter] in *. rewrite IH.
  destruct (str_eqb (key x) k) eqn:Ex; [|reflexivity].
  destruct (str_eqb (key y) k) eqn:Ey; [|reflexivity].
  apply str_eqb_eq in Ex. apply str_eqb_eq in Ey.
  rewrite Ex, Ey, str_ltb_irrefl in E. discriminate.
Qed.

(** Stability: the elements of any one key keep their order. *)
Lemma sort_by_stable (k : str) (l : list A) :
  filter (fun a => str_eqb (key a) k) (sort_by key l)
  = filter (fun a => str_eqb (key a) k) l.
Proof.
  induction l as [|x t IH]; [reflexivity|].
  cbn [sort_by]. rewrite insert_by_filter. cbn [filter]. rewrite IH.
  reflexivity.
Qed.

(** The sort on decorated elements is the sort on the elements. *)
Lemma insert_desc_decorated (x : A) (l : list A) :
  insert_desc (key x, x) (map (fun a => (key a, a)) l)
  = map (fun a => (key a, a)) (insert_by key x l).
Proof.
  induction l as [|y t IH]; [reflexivity|].
  cbn [map insert_desc insert_by fst].
  destruct (str_ltb (key x) (key y)); cbn [map]; [rewrite IH|]; reflexivity.
Qed.

Lemma sort_desc_decorated (l : list A) :
  map snd (sort_desc (combine (map key l) l)) = sort_by key l.
Proof.
  assert (E : forall l', combine (map key l') l' = map (fun a => (key a, a)) l').
  { induction l' as [|x t IH]; simpl; [|rewrite IH]; reflexivity. }
  rewrite E.
  assert (S : sort_desc (map (fun a => (key a, a)) l)
              = map (fun a => (key a, a)) (sort_by key l)).
  { induction l as [|x t IH]; [reflexivity|].
    cbn [map sort_desc sort_by]. rewrite IH. apply insert_desc_decorated. }
  rewrite S, map_map. cbn [snd]. apply map_id.
Qed.

End Sorting.

(** ** Records and the store *)

Lemma assoc_lookup_set_same (k : str) (v : value) (l : list (str * value)) :
  assoc_lookup k (assoc_set k v l) = Some v.
Proof.
  induction l as [|[k0 v0] t IH]; simpl.
  - rewrite str_eqb_refl. reflexivity.
  - destruct (str_eqb k k0) eqn:E; simpl.
    + rewrite str_eqb_refl. reflexivity.
    + rewrite E. exact IH.
Qed.

Lemma assoc_lookup_set_other (k k' : str) (v : value)
    (l : list (str * value)) :
  str_eqb k' k = false ->
  assoc_lookup k' (assoc_set k v l) = assoc_lookup k' l.
Proof.
  intro H. induction l as [|[k0 v0] t IH]; simpl.
  - rewrite H. reflexivity.
  - destruct (str_eqb k k0) eqn:E; simpl.
    + apply str_eqb_eq in E. subst k0. rewrite H. reflexivity.
    + rewrite IH. reflexivity.
Qed.

Lemma assoc_set_idem (k : str) (v : value) (l : list (str * value)) :
  assoc_set k v (assoc_set k v l) = assoc_set k v l.
Proof.
  induction l as [|[k0 v0] t IH]; simpl.
  - rewrite str_eqb_refl. reflexivity.
  - destruct (str_eqb k k0) eqn:E; simpl.
    + rewrite str_eqb_refl. reflexivity.
    + rewrite E, IH. reflexivity.
Qed.

Lemma assoc_set_fresh (k : str) (v : value) (l : list (str * value)) :
  assoc_lookup k l = None -> assoc_set k v l = l ++ [(k, v)].
Proof.
  induction l as [|[k0 v0] t IH]; simpl; [reflexivity|].
  destruct (str_eqb k k0); [discriminate|].
  intro H. rewrite IH by exact H. reflexivity.
Qed.

Lemma dict_get_set_other (d : dict) (k k' : str) (v dflt : value) :
  str_eqb k' k = false ->
  dict_get (dict_set d k v) k' dflt = dict_get d k' dflt.
Proof.
  intro H. unfold dict_get, dict_lookup, dict_set. cbn [items].
  rewrite assoc_lookup_set_other by exact H. reflexivity.
Qed.

Lemma dict_set_idem (d : dict) (k : str) (v : value) :
  dict_set (dict_set d k v) k v = dict_set d k v.
Proof. unfold dict_set. cbn [items rest]. rewrite assoc_set_idem. reflexivity. Qed.

Lemma render_row_keyed (d : dict) (v : value) :
  render_row (dict_set d SORT_DATE v) = render_row d.
Proof.
  unfold render_row.
  rewrite !dict_get_set_other by (vm_compute; reflexivity). reflexivity.
Qed.

Lemma set_sort_date_at (h : heap) (r l : loc) :
  set_sort_date h r l = if l =? r then keyed h r else h l.
Proof. reflexivity. Qed.

Lemma keyed_set_sort_date (h : heap) (r l : loc) :
  keyed (set_sort_date h r) l = keyed h l.
Proof.
  unfold keyed, sort_key. rewrite !set_sort_date_at.
  destruct (l =? r) eqn:E; [|reflexivity].
  apply Nat.eqb_eq in E. subst l. unfold keyed, sort_key.
  rewrite dict_get_set_other by (vm_compute; reflexivity).
  apply dict_set_idem.
Qed.

(** The store after the first loop of [build_table]. *)
Lemma fold_set_sort_date (rows : list loc) (h : heap) (l : loc) :
  fold_left set_sort_date rows h l
  = if existsb (Nat.eqb l) rows then keyed h l else h l.
Proof.
  revert h. induction rows as [|r rows IH]; intro h; [reflexivity|].
  cbn [fold_left existsb]. rewrite IH, keyed_set_sort_date, set_sort_date_at.
  destruct (l =? r) eqn:E; cbn [orb].
  - apply Nat.eqb_eq in E. subst l.
    destruct (existsb (Nat.eqb r) rows); reflexivity.
  - reflexivity.
Qed.

Lemma existsb_eqb_In (l : loc) (rows : list loc) :
  existsb (Nat.eqb l) rows = true <-> In l rows.
Proof.
  rewrite existsb_exists. split.
  - intros [x [Hx E]]. apply Nat.eqb_eq in E. subst x. exact Hx.
  - intro H. exists l. split; [exact H|apply Nat.eqb_refl].
Qed.

Lemma fold_set_sort_date_in (rows : list loc) (h : heap) (l : loc) :
  In l rows -> fold_left set_sort_date rows h l = keyed h l.
Proof.
  intro H. rewrite fold_set_sort_date.
  apply existsb_eqb_In in H. rewrite H. reflexivity.
Qed.

Lemma fold_set_sort_date_out (rows : list loc) (h : heap) (l : loc) :
  ~ In l rows -> fold_left set_sort_date rows h l = h l.
Proof.
  intro H. rewrite fold_set_sort_date.
  destruct (existsb (Nat.eqb l) rows) eqn:E; [|reflexivity].
  apply existsb_eqb_In in E. contradiction.
Qed.

Lemma render_row_fold (rows : list loc) (h : heap) (l : loc) :
  render_row (fold_left set_sort_date rows h l) = render_row (h l).
Proof.
  rewrite fold_set_sort_date.
  destruct (existsb (Nat.eqb l) rows); [apply render_row_keyed|reflexivity].
Qed.

Lemma mapM_ret {A B : Type} (f : A -> res B) (g : A -> B) (l : list A) :
  (forall x, In x l -> f x = ret (g x)) -> mapM f l = ret (map g l).
Proof.
  induction l as [|a t IH]; intro H; [reflexivity|].
  cbn [mapM map]. rewrite (H a (or_introl eq_refl)).
  rewrite IH by (intros x Hx; apply H; right; exact Hx). reflexivity.
Qed.

Lemma sort_date_of_keyed (h : heap) (r : loc) :
  sort_date_of (keyed h r) = ret (sort_key h r).
Proof.
  unfold sort_date_of, dict_item, dict_lookup, keyed, dict_set. cbn [items].
  rewrite assoc_lookup_set_same. reflexivity.
Qed.

(** ** Row formatter *)

(** [build_table] never raises; it returns the header, one rendered row for
    each record in sorted order and the footer, and leaves the store with
    the sort keys and the list sorted. *)
Lemma build_table_eq (now : datetime) (h : heap) (rows : list loc) :
  build_table now h rows
  = ret (join nl ((header :: map (fun r => render_row (h r))
                                 (sort_by (sort_key h) rows))
                  ++ [footer now]),
         fold_left set_sort_date rows h,
         sort_by (sort_key h) rows).
Proof.
  unfold build_table.
  rewrite (@mapM_ret _ _ _ (sort_key h) rows).
  - cbn [bind ret]. rewrite sort_desc_decorated.
    rewrite (map_ext (fun r => render_row (fold_left set_sort_date rows h r))
               (fun r => render_row (h r)))
      by (intro r; apply render_row_fold).
    reflexivity.
  - intros r Hr. rewrite fold_set_sort_date_in by exact Hr.
    apply sort_date_of_keyed.
Qed.

Lemma join_snoc (sep : str) (l : list str) (x : str) :
  l <> [] -> join sep (l ++ [x]) = join sep l ++ sep ++ x.
Proof.
  induction l as [|a t IH]; [congruence|]. intros _.
  destruct t as [|b t]; [reflexivity|].
  change (join sep ((a :: b :: t) ++ [x]))
    with (a ++ sep ++ join sep ((b :: t) ++ [x])).
  rewrite IH by discriminate.
  change (join sep (a :: b :: t)) with (a ++ sep ++ join sep (b :: t)).
  rewrite <- !app_assoc. reflexivity.
Qed.

Lemma endswith_app_r (x y p : str) :
  endswith y p = true -> endswith (x ++ y) p = true.
Proof.
  unfold endswith. rewrite rev_app_distr. apply startswith_extend.
Qed.

Lemma render_row_ends (d : dict) : endswith (render_row d) (lit "|") = true.
Proof.
  unfold render_row. rewrite !app_assoc. apply endswith_app_r.
  vm_compute. reflexivity.
Qed.

Lemma join_ends (sep p : str) (l : list str) (x : str) :
  Forall (fun y => endswith y p = true) (x :: l) ->
  endswith (join sep (x :: l)) p = true.
Proof.
  revert x. induction l as [|a t IH]; intros x H.
  - simpl. inversion H. assumption.
  - change (join sep (x :: a :: t)) with (x ++ sep ++ join sep (a :: t)).
    rewrite app_assoc. apply endswith_app_r. apply IH.
    inversion H. assumption.
Qed.

Lemma table_body_ends (h : heap) (rows : list loc) :
  endswith (join nl (header :: map (fun r => render_row (h r)) rows))
           (lit "|") = true.
Proof.
  apply join_ends. constructor; [vm_compute; reflexivity|].
  apply Forall_forall. intros y Hy. apply in_map_iff in Hy.
  destruct Hy as [r [<- _]]. apply render_row_ends.
Qed.

Lemma code_digit (n : nat) : code (digit n) = 48 + n mod 10.
Proof.
  unfold code, digit, chr. apply nat_ascii_embedding.
  pose proof (Nat.mod_upper_bound n 10). lia.
Qed.

Lemma is_ascii_digit_digit (n : nat) : is_ascii_digit (digit n) = true.
Proof.
  unfold is_ascii_digit. rewrite code_digit.
  pose proof (Nat.mod_upper_bound n 10).
  apply andb_true_iff. split; apply Nat.leb_le; lia.
Qed.

Lemma strftime_shape (now : datetime) : is_timestamp (strftime now) = true.
Proof.
  unfold strftime, pad4, pad2.
  cbn [app lit list_ascii_of_string is_timestamp forallb].
  rewrite !is_ascii_digit_digit. vm_compute. reflexivity.
Qed.

Lemma not_own_paragraph (now : datetime) (body : str) :
  endswith body (lit "|") = true ->
  ~ footer_own_paragraph now (body ++ nl ++ footer now).
Proof.
  intros He [body' E].
  assert (E' : (body ++ nl) ++ footer now = ((body' ++ nl) ++ nl) ++ footer now)
    by (rewrite <- !app_assoc; exact E).
  apply app_inv_tail in E'. apply app_inv_tail in E'. subst body.
  unfold endswith in He. rewrite rev_app_distr in He.
  vm_compute in He. discriminate.
Qed.

(** C3: the block is the header and the rows, one newline, and the line
    [_Last updated: YYYY-MM-DD HH:MM UTC_]; the line before the footer ends
    with a pipe, so no blank line precedes the footer. *)
Theorem build_table_footer (now : datetime) (h : heap) (rows : list loc) :
  exists body h1 rows1,
    build_table now h rows = ret (body ++ nl ++ footer now, h1, rows1)
    /\ body = join nl (header :: map (fun r => render_row (h r)) rows1)
    /\ endswith body (lit "|") = true
    /\ ~ footer_own_paragraph now (body ++ nl ++ footer now)
    /\ footer now = lit "_Last updated: " ++ strftime now ++ lit "_"
    /\ is_timestamp (strftime now) = true.
Proof.
  exists (join nl (header :: map (fun r => render_row (h r))
                                 (sort_by (sort_key h) rows))),
    (fold_left set_sort_date rows h), (sort_by (sort_key h) rows).
  split; [|split; [|split; [|split; [|split]]]].
  - rewrite build_table_eq. rewrite join_snoc by discriminate. reflexivity.
  - reflexivity.
  - apply table_body_ends.
  - apply not_own_paragraph. apply table_body_ends.
  - reflexivity.
  - apply strftime_shape.
Qed.

(** C6: the table has one row for each record, in descending order of the
    sort keys, and the records of one key keep their input order. *)
Theorem build_table_rows (now : datetime) (h : heap) (rows : list loc) :
  exists h1 rows1,
    build_table now h rows
    = ret (join nl ((header :: map (fun r => render_row (h r)) rows1)
                    ++ [footer now]), h1, rows1)
    /\ Permutation rows rows1
    /\ length (map (fun r => render_row (h r)) rows1) = length rows
    /\ StronglySorted (desc (sort_key h)) rows1
    /\ forall k,
         filter (fun r => str_eqb (sort_key h r) k) rows1
         = filter (fun r => str_eqb (sort_key h r) k) rows.
Proof.
  exists (fold_left set_sort_date rows h), (sort_by (sort_key h) rows).
  split; [|split; [|split; [|split]]].
  - apply build_table_eq.
  - apply sort_by_perm.
  - rewrite length_map. symmetry. apply Permutation_length. apply sort_by_perm.
  - apply sort_by_sorted.
  - intro k. apply sort_by_stable.
Qed.

(** ** Date normalization *)

Lemma year_test (s : str) :
  (length s =? 4) && isdigit s = true <-> year_shape s.
Proof.
  split.
  - intro H. apply andb_true_iff in H. destruct H as [Hl Hd].
    apply Nat.eqb_eq in Hl.
    destruct s as [|a [|b [|c [|d [|e s]]]]]; try discriminate.
    exists a, b, c, d. split; [reflexivity|exact Hd].
  - intros (a & b & c & d & -> & Hd). exact Hd.
Qed.

Lemma year_month_test (s : str) :
  (length s =? 7)
  && match nth_error s 4 with
     | Some c => ascii_eqb c (chr 45)
     | None => false
     end
  && isdigit (slice 0 4 s) && isdigit (slice 5 7 s) = true
  <-> year_month_shape s.
Proof.
  split.
  - intro H. repeat (apply andb_true_iff in H; destruct H as [H ?]).
    apply Nat.eqb_eq in H.
    destruct s as [|a [|b [|c [|d [|e [|m1 [|m2 [|x s]]]]]]]];
      try discriminate.
    cbn [nth_error] in *.
    match goal with E : ascii_eqb e _ = true |- _ =>
      apply ascii_eqb_eq in E; subst e end.
    exists a, b, c, d, m1, m2. split; [reflexivity|].
    unfold slice, isdigit in *. cbn [firstn skipn Nat.sub forallb] in *.
    repeat match goal with E : _ && _ = true |- _ =>
      apply andb_true_iff in E; destruct E end.
    repeat (apply andb_true_iff; split); assumption || reflexivity.
  - intros (a & b & c & d & m1 & m2 & -> & Hd).
    cbn [forallb] in Hd.
    repeat match goal with E : _ && _ = true |- _ =>
      apply andb_true_iff in E; destruct E end.
    unfold slice, isdigit.
    cbn [length Nat.eqb nth_error firstn skipn Nat.sub forallb].
    rewrite ascii_eqb_refl.
    repeat (apply andb_true_iff; split); assumption || reflexivity.
Qed.

Lemma year_not_year_month (s : str) : year_shape s -> ~ year_month_shape s.
Proof.
  intros (a & b & c & d & -> & _) (a' & b' & c' & d' & m1 & m2 & E & _).
  discriminate.
Qed.

Lemma isdigit_char_ge (c : ascii) : isdigit_char c = true -> 48 <= code c.
Proof.
  unfold isdigit_char. intro H.
  repeat (apply orb_true_iff in H; destruct H as [H | H]);
    try (apply Nat.eqb_eq in H; lia).
  apply andb_true_iff in H. destruct H as [H _]. apply Nat.leb_le in H. exact H.
Qed.

Lemma normalize_unfold (d : value) :
  normalize_date_for_sort d
  = let s := strip (or_empty d) in
    if (length s =? 4) && isdigit s then s ++ lit "-12"
    else if (length s =? 7)
            && match nth_error s 4 with
               | Some c => ascii_eqb c (chr 45)
               | None => false
               end
            && isdigit (slice 0 4 s) && isdigit (slice 5 7 s)
    then s
    else lit "0000-00".
Proof. reflexivity. Qed.

(** No sort key is smaller than the sentinel key. *)
Lemma sentinel_key_least (d : value) :
  str_ltb (normalize_date_for_sort d) (lit "0000-00") = false.
Proof.
  rewrite normalize_unfold. cbv zeta. generalize (strip (or_empty d)).
  intro s.
  destruct ((length s =? 4) && isdigit s) eqn:E1.
  - apply year_test in E1. destruct E1 as (a & b & c & e & -> & Hd).
    cbn [forallb] in Hd.
    repeat match goal with E : _ && _ = true |- _ =>
      apply andb_true_iff in E; destruct E end.
    apply str_ltb_pointwise.
    repeat constructor; try (apply isdigit_char_ge; assumption);
      vm_compute; lia.
  - match goal with |- context [if ?t then _ else _] =>
      destruct t eqn:E2 end.
    + apply year_month_test in E2.
      destruct E2 as (a & b & c & e & m1 & m2 & -> & Hd).
      cbn [forallb] in Hd.
      repeat match goal with E : _ && _ = true |- _ =>
        apply andb_true_iff in E; destruct E end.
      apply str_ltb_pointwise.
      repeat constructor; try (apply isdigit_char_ge; assumption);
        vm_compute; lia.
    + apply str_ltb_irrefl.
Qed.

(** C7: the date is stripped first; four digits get [-12] appended, four
    digits, a hyphen and two digits are kept, and everything else becomes
    [0000-00], which no sort key is smaller than. *)
Theorem normalize_date_for_sort_cases (d : value) :
  (year_shape (strip (or_empty d)) ->
   normalize_date_for_sort d = strip (or_empty d) ++ lit "-12")
  /\ (year_month_shape (strip (or_empty d)) ->
      normalize_date_for_sort d = strip (or_empty d))
  /\ (~ year_shape (strip (or_empty d)) ->
      ~ year_month_shape (strip (or_empty d)) ->
      normalize_date_for_sort d = lit "0000-00")
  /\ (forall d', str_ltb (normalize_date_for_sort d') (lit "0000-00") = false)
  /\ normalize_date_for_sort (Some (lit "2021")) = lit "2021-12"
  /\ normalize_date_for_sort (Some (lit "2021-03")) = lit "2021-03"
  /\ normalize_date_for_sort (Some (lit "")) = lit "0000-00"
  /\ normalize_date_for_sort (Some (lit "bad")) = lit "0000-00"
  /\ normalize_date_for_sort None = lit "0000-00".
Proof.
  split; [|split; [|split; [|split]]].
  - intro H. rewrite normalize_unfold. cbv zeta.
    apply year_test in H. rewrite H. reflexivity.
  - intro H. rewrite normalize_unfold. cbv zeta.
    assert (H1 : (length (strip (or_empty d)) =? 4)
                 && isdigit (strip (or_empty d)) = false).
    { destruct ((length (strip (or_empty d)) =? 4)
                && isdigit (strip (or_empty d))) eqn:E; [|reflexivity].
      apply year_test in E. exfalso.
      exact (year_not_year_month E H). }
    rewrite H1. apply year_month_test in H. rewrite H. reflexivity.
  - intros H1 H2. rewrite normalize_unfold. cbv zeta.
    destruct ((length (strip (or_empty d)) =? 4)
              && isdigit (strip (or_empty d))) eqn:E1.
    + apply year_test in E1. contradiction.
    + match goal with |- context [if ?t then _ else _] =>
        destruct t eqn:E2 end; [|reflexivity].
      apply year_month_test in E2. contradiction.
  - exact sentinel_key_least.
  - repeat split; vm_compute; reflexivity.
Qed.

(** ** Record loader *)

Lemma mem_str_In (x : str) (l : list str) : mem_str x l = true <-> In x l.
Proof.
  unfold mem_str. rewrite existsb_exists. split.
  - intros [y [Hy E]]. apply str_eqb_eq in E. subst y. exact Hy.
  - intro H. exists x. split; [exact H|apply str_eqb_refl].
Qed.

Lemma missing_cols_In (cols : list str) (c : str) :
  In c (missing_cols cols) <-> In c REQUIRED_COLS /\ ~ In c cols.
Proof.
  unfold missing_cols. rewrite filter_In. split; intros [H1 H2]; split;
    try exact H1.
  - intro Hin. apply mem_str_In in Hin. rewrite Hin in H2. discriminate.
  - destruct (mem_str c cols) eqn:E; [|reflexivity].
    apply mem_str_In in E. contradiction.
Qed.

Lemma mentions_context (p q m c : str) :
  mentions m c -> mentions (p ++ m ++ q) c.
Proof.
  intros (x & y & ->). exists (p ++ x), (y ++ q).
  rewrite <- !app_assoc. reflexivity.
Qed.

Lemma join_mentions (sep : str) (f : str -> str) (l : list str) (c : str) :
  In c l -> mentions (join sep (map f l)) (f c).
Proof.
  induction l as [|a t IH]; intro H; [contradiction|].
  destruct H as [-> | H].
  - destruct t as [|b t].
    + exists [], []. simpl. rewrite app_nil_r. reflexivity.
    + exists [], (sep ++ join sep (map f (b :: t))). reflexivity.
  - destruct t as [|b t]; [contradiction|].
    change (join sep (map f (a :: b :: t)))
      with (f a ++ sep ++ join sep (map f (b :: t))).
    rewrite app_assoc.
    pose proof (mentions_context (f a ++ sep) [] (IH H)) as M.
    rewrite app_nil_r in M. exact M.
Qed.

Lemma repr_list_mentions (l : list str) (c : str) :
  In c l -> mentions (repr_list l) (repr_str c).
Proof.
  intro H. unfold repr_list. apply mentions_context.
  apply join_mentions. exact H.
Qed.

Lemma repr_required (c : str) :
  In c REQUIRED_COLS -> repr_str c = [quote1] ++ c ++ [quote1].
Proof.
  intro H. simpl in H.
  repeat (destruct H as [<- | H]; [vm_compute; reflexivity|]).
  contradiction.
Qed.

Lemma error_message_mentions (missing cols : list str) :
  let msg := lit "CSV missing required columns: " ++ repr_list missing
             ++ lit ". Found: " ++ repr_list cols in
  (forall c, In c missing -> mentions msg (repr_str c))
  /\ (forall c, In c cols -> mentions msg (repr_str c)).
Proof.
  cbv zeta. split; intros c Hc.
  - apply mentions_context. apply repr_list_mentions. exact Hc.
  - rewrite !app_assoc.
    pose proof (mentions_context
                  ((lit "CSV missing required columns: " ++ repr_list missing)
                   ++ lit ". Found: ") [] (repr_list_mentions _ _ Hc)) as M.
    rewrite app_nil_r in M. exact M.
Qed.

Lemma read_csv_rows_unfold (path : str) (f : list (list str)) :
  read_csv_rows path (Some f)
  = match missing_cols (declared f) with
    | _ :: _ =>
        raise (ValueError (lit "CSV missing required columns: "
                           ++ repr_list (missing_cols (declared f))
                           ++ lit ". Found: " ++ repr_list (declared f)))
    | [] => ret (reader_rows f)
    end.
Proof. reflexivity. Qed.

(** C8: for an existing file the loader raises the schema error exactly when
    a required field name is not declared; the message names every missing
    field and lists the declared ones.  A header without [Tags] gives a
    message that names [Tags]. *)
Theorem read_csv_rows_schema_error (path : str) (f : list (list str)) :
  ((exists msg, read_csv_rows path (Some f) = raise (ValueError msg))
   <-> exists c, In c REQUIRED_COLS /\ ~ In c (declared f))
  /\ (forall e, read_csv_rows path (Some f) = raise e ->
      let msg := lit "CSV missing required columns: "
                 ++ repr_list (missing_cols (declared f))
                 ++ lit ". Found: " ++ repr_list (declared f) in
      e = ValueError msg
      /\ (forall c, In c REQUIRED_COLS -> ~ In c (declared f) ->
          mentions msg c)
      /\ (forall c, In c (declared f) -> mentions msg (repr_str c)))
  /\ read_csv_rows path None
     = raise (FileNotFoundError (lit "CSV not found: " ++ path))
  /\ read_csv_rows path (Some no_tags_csv)
     = raise (ValueError
                (lit "CSV missing required columns: ['Tags']. Found: ['Project', 'Date', 'Tools', 'Description', 'Link']")).
Proof.
  split; [|split; [|split]].
  - rewrite read_csv_rows_unfold. split.
    + intros [msg H].
      destruct (missing_cols (declared f)) as [|c t] eqn:E; [discriminate|].
      exists c. apply missing_cols_In. rewrite E. left. reflexivity.
    + intros [c Hc]. apply missing_cols_In in Hc.
      destruct (missing_cols (declared f)) as [|c' t] eqn:E; [contradiction|].
      eexists. reflexivity.
  - intros e H. cbv zeta. rewrite read_csv_rows_unfold in H.
    destruct (missing_cols (declared f)) as [|c' t] eqn:E; [discriminate|].
    rewrite <- E in *. clear E.
    destruct (error_message_mentions (missing_cols (declared f)) (declared f))
      as [M1 M2].
    split; [injection H as <-; reflexivity|]. split.
    + intros c Hc Hn.
      assert (Hm : In c (missing_cols (declared f)))
        by (apply missing_cols_In; split; assumption).
      destruct (M1 c Hm) as (x & y & Exy).
      rewrite (repr_required Hc) in Exy.
      exists (x ++ [quote1]), ([quote1] ++ y). rewrite Exy.
      rewrite <- !app_assoc. reflexivity.
    + exact M2.
  - reflexivity.
  - vm_compute. reflexivity.
Qed.

Lemma fold_store_lookup (U : list (str * value)) (acc : list (str * value))
    (k : str) (v : value) :
  assoc_lookup k (fold_left store U acc) = Some v ->
  In (k, v) U \/ assoc_lookup k acc = Some v.
Proof.
  revert acc. induction U as [|[k0 v0] U IH]; intros acc H; [right; exact H|].
  cbn [fold_left] in H. apply IH in H. destruct H as [H | H].
  - left. right. exact H.
  - unfold store in H. cbn [fst snd] in H.
    destruct (str_eqb k k0) eqn:E.
    + apply str_eqb_eq in E. subst k0.
      rewrite assoc_lookup_set_same in H. injection H as ->.
      left. left. reflexivity.
    + rewrite assoc_lookup_set_other in H by exact E. right. exact H.
Qed.

Lemma fold_store_defined (U : list (str * value)) (acc : list (str * value))
    (k : str) :
  (exists v, In (k, v) U) \/ (exists v, assoc_lookup k acc = Some v) ->
  exists v, assoc_lookup k (fold_left store U acc) = Some v.
Proof.
  revert acc. induction U as [|[k0 v0] U IH]; intros acc H.
  - destruct H as [[v []] | H]. exact H.
  - cbn [fold_left]. apply IH.
    destruct H as [[v [Hv | Hv]] | [v Hv]].
    + injection Hv as -> ->. right. exists v. unfold store. cbn [fst snd].
      apply assoc_lookup_set_same.
    + left. exists v. exact Hv.
    + right. unfold store. cbn [fst snd].
      destruct (str_eqb k k0) eqn:E.
      * apply str_eqb_eq in E. subst k0. exists v0.
        apply assoc_lookup_set_same.
      * exists v. rewrite assoc_lookup_set_other by exact E. exact Hv.
Qed.

Lemma items_dict_of_row (names row : list str) :
  items (dict_of_row names row) = fold_left store (updates names row) [].
Proof.
  unfold dict_of_row, updates. rewrite fold_left_app.
  assert (E1 : forall L acc,
             fold_left (fun a kv => assoc_set (fst kv) (Some (snd kv)) a) L acc
             = fold_left store
                 (map (fun kv : str * str => (fst kv, Some (snd kv))) L) acc).
  { induction L as [|x L IH]; intro acc; [reflexivity|]. simpl. apply IH. }
  assert (E2 : forall L acc,
             fold_left (fun a k => assoc_set k None a) L acc
             = fold_left store (map (fun k : str => (k, None)) L) acc).
  { induction L as [|x L IH]; intro acc; [reflexivity|]. simpl. apply IH. }
  destruct (length names <? length row) eqn:E; cbn [items].
  - apply Nat.ltb_lt in E. rewrite skipn_all2 by lia. rewrite E1. reflexivity.
  - rewrite E2, E1. reflexivity.
Qed.

Lemma updates_cover (names row : list str) (c : str) :
  In c names -> exists v, In (c, v) (updates names row).
Proof.
  unfold updates. revert row. induction names as [|a t IH]; intros row H;
    [contradiction|].
  destruct row as [|x r].
  - exists None.
    change (In (c, None) (map (fun k : str => (k, @None str)) (a :: t))).
    apply in_map_iff. exists c. split; [reflexivity|exact H].
  - destruct H as [-> | H].
    + exists (Some x). left. reflexivity.
    + destruct (IH r H) as [v Hv]. exists v. right. exact Hv.
Qed.

Lemma updates_cell (names row : list str) (c : str) (v : value) :
  In (c, v) (updates names row) ->
  exists i, nth_error names i = Some c /\ v = nth_error row i.
Proof.
  unfold updates. revert row. induction names as [|a t IH]; intros row H.
  - destruct row; simpl in H; contradiction.
  - destruct row as [|x r].
    + change (In (c, v) (map (fun k : str => (k, @None str)) (a :: t))) in H.
      apply in_map_iff in H. destruct H as [k [E Hk]]. injection E as -> <-.
      apply In_nth_error in Hk. destruct Hk as [i Hi]. exists i.
      split; [exact Hi|]. destruct i; reflexivity.
    + destruct H as [H | H].
      * injection H as -> <-. exists 0. split; reflexivity.
      * destruct (IH r H) as [i [H1 H2]]. exists (S i). split; assumption.
Qed.

(** A declared field name is a key of the row dictionary; its value is the
    cell of a column of that name, or [None] when the row has no cell
    there. *)
Lemma dict_of_row_lookup (names row : list str) (c : str) :
  In c names ->
  exists v i,
    dict_lookup (dict_of_row names row) c = Some v
    /\ nth_error names i = Some c /\ v = nth_error row i.
Proof.
  intro H. unfold dict_lookup. rewrite items_dict_of_row.
  destruct (@fold_store_defined (updates names row) [] c) as [v Hv].
  { left. apply updates_cover. exact H. }
  exists v. destruct (fold_store_lookup _ _ _ Hv) as [Hu | Hu];
    [|discriminate].
  destruct (updates_cell _ _ _ _ Hu) as [i [H1 H2]].
  exists i. repeat split; assumption.
Qed.

(** C4: when the header declares every required column the loader returns
    one record for each non-empty row; each record maps each required field
    name to the cell of a column of that name, or to [None] when the row
    has no cell there, and [None] is read as the empty string by [esc] and
    [normalize_date_for_sort]. *)
Theorem read_csv_rows_records (path : str) (names : list str)
    (data : list (list str)) :
  (forall c, In c REQUIRED_COLS -> In c names) ->
  read_csv_rows path (Some (names :: data))
  = ret (map (dict_of_row names)
             (filter (fun r => negb (is_empty_row r)) data))
  /\ (forall row c, In c REQUIRED_COLS ->
      exists v i,
        dict_lookup (dict_of_row names row) c = Some v
        /\ nth_error names i = Some c /\ v = nth_error row i)
  /\ esc None = esc (Some [])
  /\ normalize_date_for_sort None = normalize_date_for_sort (Some []).
Proof.
  intro H. split; [|split; [|split; reflexivity]].
  - rewrite read_csv_rows_unfold.
    destruct (missing_cols (declared (names :: data))) as [|c t] eqn:E;
      [reflexivity|].
    assert (Hc : In c (missing_cols (declared (names :: data))))
      by (rewrite E; left; reflexivity).
    apply missing_cols_In in Hc. destruct Hc as [H1 H2].
    exfalso. apply H2. apply H. exact H1.
  - intros row c Hc. apply dict_of_row_lookup. apply H. exact Hc.
Qed.

(** A name that the header does not declare is not a key of the row
    dictionary. *)
Lemma dict_of_row_no_key (names row : list str) (k : str) :
  ~ In k names -> dict_lookup (dict_of_row names row) k = None.
Proof.
  intro H. unfold dict_lookup. rewrite items_dict_of_row.
  destruct (assoc_lookup k (fold_left store (updates names row) []))
    as [v|] eqn:E; [|reflexivity].
  exfalso. destruct (fold_store_lookup _ _ _ E) as [Hu | Hu]; [|discriminate].
  destruct (updates_cell _ _ _ _ Hu) as [i [H1 _]].
  apply H. apply nth_error_In with (n := i). exact H1.
Qed.

(** C10: the call leaves the caller's list sorted and every record of the
    list with the key [_sort_date] set to its normalized date; a record that
    did not have the key gets it as a new last entry, which is the case of
    every record loaded under a header without that name, and no other
    record of the store changes. *)
Theorem build_table_mutates (now : datetime) (h : heap) (rows : list loc) :
  exists block h1 rows1,
    build_table now h rows = ret (block, h1, rows1)
    /\ rows1 = sort_by (sort_key h) rows
    /\ Permutation rows rows1
    /\ StronglySorted (desc (sort_key h)) rows1
    /\ (forall r, In r rows ->
          h1 r = dict_set (h r) SORT_DATE (Some (sort_key h r))
          /\ dict_lookup (h1 r) SORT_DATE = Some (Some (sort_key h r))
          /\ (dict_lookup (h r) SORT_DATE = None ->
              items (h1 r)
              = items (h r) ++ [(SORT_DATE, Some (sort_key h r))]))
    /\ (forall r, ~ In r rows -> h1 r = h r)
    /\ (forall names row, ~ In SORT_DATE names ->
        dict_lookup (dict_of_row names row) SORT_DATE = None).
Proof.
  eexists. exists (fold_left set_sort_date rows h), (sort_by (sort_key h) rows).
  split; [apply build_table_eq|].
  split; [reflexivity|].
  split; [apply sort_by_perm|].
  split; [apply sort_by_sorted|].
  split; [|split].
  - intros r Hr. rewrite fold_set_sort_date_in by exact Hr. unfold keyed.
    split; [reflexivity|]. split.
    + unfold dict_lookup, dict_set. cbn [items].
      apply assoc_lookup_set_same.
    + intro Hn. unfold dict_set. cbn [items].
      apply assoc_set_fresh. exact Hn.
  - intros r Hr. apply fold_set_sort_date_out. exact Hr.
  - intros names row Hn. apply dict_of_row_no_key. exact Hn.
Qed.

(** ** Entry point *)

Lemma universal_newlines_cons (c : ascii) (t : str) :
  ascii_eqb c (chr 13) = false ->
  universal_newlines (c :: t) = c :: universal_newlines t.
Proof. intro H. cbn [universal_newlines]. rewrite H. reflexivity. Qed.

(** A text that was read holds no carriage return. *)
Lemma universal_newlines_no_cr (s : str) :
  ~ In (chr 13) (universal_newlines s).
Proof.
  assert (G : forall n s', length s' <= n ->
                ~ In (chr 13) (universal_newlines s')).
  { induction n as [|n IH]; intros s' Hl.
    - destruct s'; [intros []|simpl in Hl; lia].
    - destruct s' as [|c t]; [intros []|].
      simpl in Hl. cbn [universal_newlines].
      destruct (ascii_eqb c (chr 13)) eqn:Ec.
      + destruct t as [|c' t'].
        * intros [H | []]. discriminate H.
        * destruct (ascii_eqb c' (chr 10)).
          -- intros [H | H]; [discriminate H|].
             revert H. apply IH. simpl in Hl. lia.
          -- intros [H | H]; [discriminate H|].
             revert H. apply IH. lia.
      + intros [H | H].
        * subst c. rewrite ascii_eqb_refl in Ec. discriminate Ec.
        * revert H. apply IH. lia. }
  apply (G (length s)). lia.
Qed.

(** Reading changes nothing in a text without carriage returns. *)
Lemma universal_newlines_id (s : str) :
  ~ In (chr 13) s -> universal_newlines s = s.
Proof.
  induction s as [|c t IH]; intro H; [reflexivity|].
  rewrite universal_newlines_cons.
  - f_equal. apply IH. intro Hin. apply H. right. exact Hin.
  - apply ascii_eqb_neq. intro E. apply H. left. exact E.
Qed.

Lemma section_no_cr (block : str) :
  ~ In (chr 13) block -> ~ In (chr 13) (section_of block).
Proof.
  intros Hb H. unfold section_of in H. rewrite !in_app_iff in H.
  destruct H as [H | [H | [H | [H | H]]]].
  - revert H. apply mem_char_In. vm_compute. reflexivity.
  - revert H. apply mem_char_In. vm_compute. reflexivity.
  - exact (Hb H).
  - revert H. apply mem_char_In. vm_compute. reflexivity.
  - revert H. apply mem_char_In. vm_compute. reflexivity.
Qed.

Lemma splice_no_cr (block before after : str) :
  ~ In (chr 13) before -> ~ In (chr 13) after -> ~ In (chr 13) block ->
  ~ In (chr 13) (rstrip before ++ section_of block ++ lstrip after).
Proof.
  intros Hb Ha Hk H. rewrite !in_app_iff in H. destruct H as [H | [H | H]].
  - apply Hb. destruct (rstrip_split before) as [w [E _]]. rewrite E.
    apply in_or_app. left. exact H.
  - exact (section_no_cr Hk H).
  - apply Ha. destruct (lstrip_split after) as [w [E _]]. rewrite E.
    apply in_or_app. right. exact H.
Qed.

Lemma main_unfold (now : datetime) (path : str) (fs : files)
    (rows : list dict) (block : str) (h1 : heap) (rows1 : list loc)
    (new_text : str) :
  read_csv_rows path (csv_file fs) = ret rows ->
  build_table now (alloc rows) (seq 0 (length rows)) = ret (block, h1, rows1) ->
  insert_between_markers (read_readme fs) block START END = ret new_text ->
  main now path fs
  = if negb (str_eqb new_text (read_readme fs))
    then ret (mkFiles (csv_file fs) (Some new_text),
              lit "README updated from CSV.")
    else ret (fs, lit "No README changes detected.").
Proof.
  intros H1 H2 H3. unfold main. rewrite H1. cbn [bind ret]. rewrite H2.
  cbn [bind ret fst]. rewrite H3. reflexivity.
Qed.

(** C5: when the README as it is read already holds the managed region,
    with the first start sentinel before the only end sentinel, and the
    block holds no end sentinel and no carriage return, a second run with
    the same input and clock finds the spliced text equal to the text it
    reads, reports no change and writes nothing. *)
Theorem main_second_run (now : datetime) (path : str) (fs : files)
    (rows : list dict) (block : str) (h1 : heap) (rows1 : list loc)
    (raw before between after : str) :
  read_csv_rows path (csv_file fs) = ret rows ->
  build_table now (alloc rows) (seq 0 (length rows)) = ret (block, h1, rows1) ->
  count END block = 0 ->
  ~ In (chr 13) block ->
  readme_file fs = Some raw ->
  managed (universal_newlines raw) before between after ->
  exists fs1 msg1,
    main now path fs = ret (fs1, msg1)
    /\ main now path fs1 = ret (fs1, lit "No README changes detected.").
Proof.
  intros H1 H2 Hb Hcr Hr Hm.
  assert (Rd : read_readme fs = universal_newlines raw)
    by (unfold read_readme; rewrite Hr; reflexivity).
  assert (E1 : insert_between_markers (universal_newlines raw) block START END
               = ret (rstrip before ++ section_of block ++ lstrip after))
    by (apply splice_managed with (between := between); exact Hm).
  destruct (splice_twice block Hm Hb) as [out [E1' E2]].
  rewrite E1 in E1'. injection E1' as <-.
  assert (Ncr : ~ In (chr 13) (rstrip before ++ section_of block
                               ++ lstrip after)).
  { pose proof (universal_newlines_no_cr raw) as N.
    destruct Hm as (E & _). rewrite E in N.
    apply splice_no_cr; [| |exact Hcr]; intro H; apply N.
    - apply in_or_app. left. exact H.
    - rewrite !in_app_iff. right. right. right. right. exact H. }
  set (out := rstrip before ++ section_of block ++ lstrip after) in *.
  assert (R1 : main now path fs
               = if negb (str_eqb out (universal_newlines raw))
                 then ret (mkFiles (csv_file fs) (Some out),
                           lit "README updated from CSV.")
                 else ret (fs, lit "No README changes detected.")).
  { rewrite (@main_unfold now path fs rows block h1 rows1 out H1 H2);
      rewrite Rd; [reflexivity|exact E1]. }
  destruct (str_eqb out (universal_newlines raw)) eqn:E.
  - exists fs, (lit "No README changes detected."). split; exact R1.
  - exists (mkFiles (csv_file fs) (Some out)), (lit "README updated from CSV.").
    split; [exact R1|].
    assert (Rd' : read_readme (mkFiles (csv_file fs) (Some out)) = out)
      by (apply universal_newlines_id; exact Ncr).
    rewrite (@main_unfold now path (mkFiles (csv_file fs) (Some out))
               rows block h1 rows1 out H1 H2);
      rewrite Rd'; [|exact E2].
    rewrite str_eqb_refl. reflexivity.
Qed.

(** ** Instances and counterexamples *)

Lemma insert_between_markers_frame_witness :
  managed sample_readme (lit "# Portfolio" ++ nl ++ nl)
          (nl ++ lit "old table" ++ nl) (nl ++ nl ++ lit "Contact" ++ nl)
  /\ exists w1 w2,
       all_space w1 /\ all_space w2
       /\ lit "# Portfolio" ++ nl ++ nl
          = rstrip (lit "# Portfolio" ++ nl ++ nl) ++ w1
       /\ nl ++ nl ++ lit "Contact" ++ nl
          = w2 ++ lstrip (nl ++ nl ++ lit "Contact" ++ nl)
       /\ insert_between_markers sample_readme (lit "new table") START END
          = ret (rstrip (lit "# Portfolio" ++ nl ++ nl)
                 ++ section_of (lit "new table")
                 ++ lstrip (nl ++ nl ++ lit "Contact" ++ nl)).
Proof.
  assert (M : managed sample_readme (lit "# Portfolio" ++ nl ++ nl)
                (nl ++ lit "old table" ++ nl)
                (nl ++ nl ++ lit "Contact" ++ nl)).
  { unfold managed. repeat split; vm_compute; reflexivity. }
  split; [exact M|].
  exact (insert_between_markers_frame (lit "new table") M).
Defined.

Lemma insert_between_markers_append_witness :
  insert_between_markers (lit "# Portfolio") (lit "table") START END
  = ret (lit "# Portfolio" ++ separator (lit "# Portfolio")
         ++ section_of (lit "table") ++ nl)
  /\ trailing_newlines (lit "# Portfolio" ++ separator (lit "# Portfolio")) = 2.
Proof.
  destruct (@insert_between_markers_append (lit "# Portfolio") (lit "table"))
    as [E H].
  - left. vm_compute. reflexivity.
  - split; [exact E|]. apply H.
    + discriminate.
    + vm_compute. reflexivity.
Defined.

(** C2, as stated, fails for a README that ends with one newline: two blank
    lines separate it from the appended section. *)
Lemma append_two_blank_lines :
  contains START plain_readme = false
  /\ exists out,
       insert_between_markers plain_readme (lit "table") START END = ret out
       /\ ~ appended_one_blank_line_apart plain_readme (lit "table") out.
Proof.
  split; [vm_compute; reflexivity|].
  exists (plain_readme ++ (nl ++ nl) ++ section_of (lit "table") ++ nl).
  split; [vm_compute; reflexivity|].
  intros [gap [E H]].
  apply app_inv_head in E.
  rewrite !app_assoc in E. apply app_inv_tail in E. apply app_inv_tail in E.
  subst gap.
  assert (H' : trailing_newlines (plain_readme ++ nl ++ nl) = 2).
  { apply H; [discriminate|vm_compute; reflexivity]. }
  vm_compute in H'. discriminate.
Qed.

Lemma build_table_footer_witness :
  exists body h1 rows1,
    build_table sample_now (alloc sample_records) [0; 1]
    = ret (body ++ nl ++ footer sample_now, h1, rows1)
    /\ endswith body (lit "|") = true
    /\ footer sample_now = lit "_Last updated: 2024-03-07 09:05 UTC_".
Proof.
  destruct (build_table_footer sample_now (alloc sample_records) [0; 1])
    as (body & h1 & rows1 & E & _ & He & _ & _ & _).
  exists body, h1, rows1. split; [exact E|]. split; [exact He|].
  vm_compute. reflexivity.
Defined.

(** C3, as stated, fails: no blank line stands between the last row and the
    footer. *)
Lemma footer_after_single_newline :
  exists block h1 rows1,
    build_table sample_now (alloc sample_records) [0; 1]
    = ret (block, h1, rows1)
    /\ ~ footer_own_paragraph sample_now block.
Proof.
  eexists. eexists. eexists. split.
  - rewrite build_table_eq. rewrite join_snoc by discriminate. reflexivity.
  - apply not_own_paragraph. apply table_body_ends.
Qed.

Lemma read_csv_rows_records_witness :
  read_csv_rows sample_path (Some ragged_csv)
  = ret [dict_of_row REQUIRED_COLS [lit "Gamma"]]
  /\ exists v i,
       dict_lookup (dict_of_row REQUIRED_COLS [lit "Gamma"]) (lit "Date")
       = Some v
       /\ nth_error REQUIRED_COLS i = Some (lit "Date")
       /\ v = nth_error [lit "Gamma"] i.
Proof.
  destruct (@read_csv_rows_records sample_path REQUIRED_COLS [[lit "Gamma"]])
    as (E & L & _).
  - intros c H. exact H.
  - split; [exact E|]. apply L. right. left. reflexivity.
Defined.

(** C4, as stated, fails for a row shorter than the header: the missing
    fields are [None], not strings. *)
Lemma ragged_row_gives_None :
  exists rows,
    read_csv_rows sample_path (Some ragged_csv) = ret rows
    /\ ~ fields_are_strings rows.
Proof.
  exists [dict_of_row REQUIRED_COLS [lit "Gamma"]].
  split; [vm_compute; reflexivity|].
  intro H.
  destruct (H (dict_of_row REQUIRED_COLS [lit "Gamma"]) (lit "Date"))
    as [s Hs].
  - left. reflexivity.
  - right. left. reflexivity.
  - vm_compute in Hs. discriminate.
Qed.

Lemma main_second_run_witness :
  managed (universal_newlines sample_readme) (lit "# Portfolio" ++ nl ++ nl)
          (nl ++ lit "old table" ++ nl) (nl ++ nl ++ lit "Contact" ++ nl)
  /\ exists fs1 msg1,
       main sample_now sample_path sample_files = ret (fs1, msg1)
       /\ main sample_now sample_path fs1
          = ret (fs1, lit "No README changes detected.").
Proof.
  assert (M : managed (universal_newlines sample_readme)
                (lit "# Portfolio" ++ nl ++ nl)
                (nl ++ lit "old table" ++ nl)
                (nl ++ nl ++ lit "Contact" ++ nl)).
  { unfold managed. repeat split; vm_compute; reflexivity. }
  split; [exact M|].
  eapply (@main_second_run sample_now sample_path sample_files sample_records).
  - vm_compute. reflexivity.
  - reflexivity.
  - vm_compute. reflexivity.
  - intro H. vm_compute in H. intuition discriminate.
  - reflexivity.
  - exact M.
Defined.

(** C5, as stated, fails when the README does not exist yet: the first run
    appends the section, and the second run strips the newlines around it
    and writes again. *)
Lemma second_run_rewrites :
  ~ second_run_is_noop sample_now sample_path fresh_files.
Proof.
  intro H.
  destruct (main sample_now sample_path fresh_files) as [e | [fs1 msg1]] eqn:E.
  - vm_compute in E. discriminate.
  - specialize (H fs1 msg1 E).
    vm_compute in E. injection E as <- <-.
    vm_compute in H. discriminate.
Qed.

Lemma build_table_rows_witness :
  exists h1 rows1,
    build_table sample_now (alloc sample_records) [0; 1]
    = ret (join nl ((header :: map (fun r => render_row (alloc sample_records r))
                                   rows1) ++ [footer sample_now]), h1, rows1)
    /\ Permutation [0; 1] rows1
    /\ StronglySorted (desc (sort_key (alloc sample_records))) rows1.
Proof.
  destruct (build_table_rows sample_now (alloc sample_records) [0; 1])
    as (h1 & rows1 & E & P & _ & S & _).
  exists h1, rows1. repeat split; assumption.
Defined.

Lemma normalize_date_for_sort_cases_witness :
  year_shape (strip (or_empty (Some (lit " 2021 "))))
  /\ normalize_date_for_sort (Some (lit " 2021 ")) = lit "2021-12".
Proof.
  assert (Y : year_shape (strip (or_empty (Some (lit " 2021 "))))).
  { exists (chr 50), (chr 48), (chr 50), (chr 49). split; reflexivity. }
  split; [exact Y|].
  exact (proj1 (normalize_date_for_sort_cases (Some (lit " 2021 "))) Y).
Defined.

Lemma read_csv_rows_schema_error_witness :
  (exists c, In c REQUIRED_COLS /\ ~ In c (declared no_tags_csv))
  /\ exists msg,
       read_csv_rows sample_path (Some no_tags_csv) = raise (ValueError msg).
Proof.
  assert (Hc : exists c, In c REQUIRED_COLS /\ ~ In c (declared no_tags_csv)).
  { exists (lit "Tags"). split.
    - right. right. right. left. reflexivity.
    - intros [H | [H | [H | [H | [H | []]]]]]; discriminate H. }
  split; [exact Hc|].
  exact (proj2 (proj1 (read_csv_rows_schema_error sample_path no_tags_csv)) Hc).
Defined.

Lemma insert_between_markers_one_region_witness :
  document plain_readme
  /\ exists out1 out2,
       insert_between_markers plain_readme (lit "table") START END = ret out1
       /\ one_region out1
       /\ insert_between_markers out1 (lit "table") START END = ret out2
       /\ one_region out2.
Proof.
  assert (D : document plain_readme).
  { left. split; vm_compute; reflexivity. }
  split; [exact D|].
  apply insert_between_markers_one_region.
  - exact D.
  - split; vm_compute; reflexivity.
  - split; vm_compute; reflexivity.
Defined.

(** C9, as stated, fails for a README that has a start sentinel and no end
    sentinel: the appended section brings a second start sentinel. *)
Lemma start_only_duplicates :
  count START start_only_readme <= 1 /\ count END start_only_readme <= 1
  /\ exists out,
       insert_between_markers start_only_readme (lit "table") START END
       = ret out
       /\ ~ one_region out.
Proof.
  split; [vm_compute; lia|]. split; [vm_compute; lia|].
  eexists. split; [vm_compute; reflexivity|].
  intros [H _]. vm_compute in H. discriminate.
Qed.

Lemma build_table_mutates_witness :
  exists block h1 rows1,
    build_table sample_now (alloc sample_records) [0; 1]
    = ret (block, h1, rows1)
    /\ rows1 = [1; 0]
    /\ dict_lookup (alloc sample_records 0) SORT_DATE = None
    /\ dict_lookup (h1 0) SORT_DATE = Some (Some (lit "2022-12")).
Proof.
  destruct (build_table_mutates sample_now (alloc sample_records) [0; 1])
    as (block & h1 & rows1 & E & Hs & _ & _ & Hin & _ & _).
  exists block, h1, rows1. split; [exact E|].
  split; [rewrite Hs; vm_compute; reflexivity|].
  split; [vm_compute; reflexivity|].
  destruct (Hin 0 (or_introl eq_refl)) as (_ & L & _).
  rewrite L. vm_compute. reflexivity.
Defined.

(* ================================================================== *)
(** * Part III: further properties *)
(* ================================================================== *)

(** ** Stripping and escaping *)

Lemma lstrip_snoc (l : str) (c : ascii) :
  isspace_char c = false -> lstrip (l ++ [c]) = lstrip l ++ [c].
Proof.
  intro Hc. induction l as [|a l IH]; simpl.
  - rewrite Hc. reflexivity.
  - destruct (isspace_char a); [exact IH|reflexivity].
Qed.

Lemma rstrip_cons (c : ascii) (t : str) :
  isspace_char c = false -> rstrip (c :: t) = c :: rstrip t.
Proof.
  intro Hc. unfold rstrip. simpl rev. rewrite lstrip_snoc by exact Hc.
  rewrite rev_app_distr. reflexivity.
Qed.

Lemma lstrip_fix (s : str) :
  lstrip s = s <-> match s with [] => True | c :: _ => isspace_char c = false end.
Proof.
  destruct s as [|c t]; simpl; [tauto|].
  destruct (isspace_char c) eqn:E; split; intro H; try reflexivity;
    try discriminate.
  exfalso. destruct (lstrip_split t) as [w [Ew _]].
  assert (L : length (lstrip t) <= length t).
  { rewrite Ew at 2. rewrite length_app. lia. }
  rewrite H in L. simpl in L. lia.
Qed.

(** Stripping leaves no white space at either end. *)
Lemma strip_stripped (s : str) :
  lstrip (strip s) = strip s /\ rstrip (strip s) = strip s.
Proof.
  unfold strip. split; [|apply rstrip_idem].
  destruct (lstrip s) as [|c t] eqn:E; [reflexivity|].
  assert (Hc : isspace_char c = false).
  { pose proof (lstrip_idem s) as I. rewrite E in I.
    apply (proj1 (lstrip_fix (c :: t))) in I. exact I. }
  rewrite rstrip_cons by exact Hc. simpl. rewrite Hc. reflexivity.
Qed.

Lemma unescaped_app (b : bool) (x y : str) :
  unescaped_pipes b (x ++ y)
  = unescaped_pipes b x + unescaped_pipes (ends_with_backslash b x) y.
Proof.
  revert b. induction x as [|c x IH]; intro b; simpl; [reflexivity|].
  rewrite IH. lia.
Qed.

Lemma ends_with_backslash_app (b : bool) (x y : str) :
  ends_with_backslash b (x ++ y)
  = ends_with_backslash (ends_with_backslash b x) y.
Proof. revert b. induction x as [|c x IH]; intro b; simpl; [reflexivity|apply IH]. Qed.

Lemma unescaped_true_le (s : str) :
  unescaped_pipes true s <= unescaped_pipes false s.
Proof. destruct s as [|c t]; simpl; [lia|]. destruct (ascii_eqb c (chr 124)); simpl; lia. Qed.

Lemma unescaped_any (b : bool) (s : str) :
  unescaped_pipes false s = 0 -> unescaped_pipes b s = 0.
Proof.
  intro H. destruct b; [|exact H].
  pose proof (unescaped_true_le s). lia.
Qed.

Lemma space_not_backslash (c : ascii) :
  isspace_char c = true -> ascii_eqb c backslash = false.
Proof.
  intro H. destruct (ascii_eqb c backslash) eqn:E; [|reflexivity].
  apply ascii_eqb_eq in E. subst c. vm_compute in H. discriminate.
Qed.

Lemma all_space_ends (w : str) :
  all_space w -> ends_with_backslash false w = false.
Proof.
  unfold all_space. assert (G : forall b, b = false -> forallb isspace_char w = true ->
                                  ends_with_backslash b w = false).
  { induction w as [|c w IH]; intros b Hb H; simpl in *; [exact Hb|].
    apply andb_true_iff in H. destruct H as [Hc Hw].
    apply IH; [apply space_not_backslash; exact Hc|exact Hw]. }
  apply G. reflexivity.
Qed.

Lemma unescaped_lstrip (s : str) :
  unescaped_pipes false s = 0 -> unescaped_pipes false (lstrip s) = 0.
Proof.
  intro H. destruct (lstrip_split s) as [w [E Hw]].
  rewrite E, unescaped_app, (all_space_ends Hw) in H. lia.
Qed.

Lemma unescaped_rstrip (s : str) :
  unescaped_pipes false s = 0 -> unescaped_pipes false (rstrip s) = 0.
Proof.
  intro H. destruct (rstrip_split s) as [w [E Hw]].
  rewrite E, unescaped_app in H. lia.
Qed.

Lemma unescaped_replace (b : bool) (s : str) :
  unescaped_pipes b (replace_char (chr 124) [backslash; chr 124] s) = 0.
Proof.
  revert b. induction s as [|c s IH]; intro b; [reflexivity|].
  unfold replace_char in *. cbn [flat_map].
  destruct (ascii_eqb c (chr 124)) eqn:E.
  - cbn [app unescaped_pipes]. rewrite IH. destruct b; vm_compute; reflexivity.
  - cbn [app unescaped_pipes]. rewrite E, IH. reflexivity.
Qed.

Lemma esc_unescaped (b : bool) (v : value) : unescaped_pipes b (esc v) = 0.
Proof.
  apply unescaped_any. unfold esc, strip.
  apply unescaped_rstrip, unescaped_lstrip, unescaped_replace.
Qed.

(** X1: a cell that [esc] returns has no white space at either end, and
    each of its pipes follows a backslash. *)
Theorem esc_cell (v : value) :
  lstrip (esc v) = esc v /\ rstrip (esc v) = esc v
  /\ unescaped_pipes false (esc v) = 0.
Proof.
  split; [apply strip_stripped|]. split; [apply strip_stripped|].
  apply esc_unescaped.
Qed.

Lemma lstrip_nil_iff (s : str) : lstrip s = [] <-> all_space s.
Proof.
  unfold all_space. induction s as [|c t IH]; simpl; [tauto|].
  destruct (isspace_char c); simpl; [exact IH|].
  split; intro H; discriminate.
Qed.

Lemma rstrip_nil_iff (s : str) : rstrip s = [] <-> all_space s.
Proof.
  unfold rstrip. split.
  - intro H. apply (f_equal (@rev ascii)) in H.
    rewrite rev_involutive in H. simpl in H.
    apply lstrip_nil_iff in H. apply all_space_rev in H.
    rewrite rev_involutive in H. exact H.
  - intro H. apply all_space_rev in H. apply lstrip_nil_iff in H.
    rewrite H. reflexivity.
Qed.

Lemma strip_nil_iff (s : str) : strip s = [] <-> all_space s.
Proof.
  unfold strip. rewrite rstrip_nil_iff. split.
  - intro H. apply lstrip_nil_iff.
    destruct (lstrip s) as [|c t] eqn:E; [reflexivity|].
    pose proof (lstrip_idem s) as I. rewrite E in I.
    apply (proj1 (lstrip_fix (c :: t))) in I.
    unfold all_space in H. simpl in H. rewrite I in H. discriminate.
  - intro H. apply lstrip_nil_iff in H. rewrite H. reflexivity.
Qed.

Lemma replace_no_pipe (s : str) :
  ~ In (chr 124) s -> replace_char (chr 124) [backslash; chr 124] s = s.
Proof.
  unfold replace_char. induction s as [|c s IH]; intro H; [reflexivity|].
  cbn [flat_map]. rewrite ascii_eqb_neq.
  - cbn [app]. f_equal. apply IH. intro Hin. apply H. right. exact Hin.
  - intro E. apply H. left. rewrite E. reflexivity.
Qed.

Lemma all_space_replace (s : str) :
  all_space (replace_char (chr 124) [backslash; chr 124] s) <-> all_space s.
Proof.
  unfold all_space, replace_char. induction s as [|c s IH]; [tauto|].
  cbn [flat_map]. destruct (ascii_eqb c (chr 124)) eqn:E.
  - apply ascii_eqb_eq in E. subst c. split; intro H; vm_compute in H;
      discriminate.
  - cbn [app forallb]. rewrite !andb_true_iff, IH. tauto.
Qed.

(** X2: [esc] only strips a value that has no pipe, and the cell is empty
    exactly when the value is missing or all white space. *)
Theorem esc_plain (v : value) :
  (~ In (chr 124) (or_empty v) -> esc v = strip (or_empty v))
  /\ (esc v = [] <-> all_space (or_empty v)).
Proof.
  unfold esc. split.
  - intro H. rewrite replace_no_pipe by exact H. reflexivity.
  - rewrite strip_nil_iff. apply all_space_replace.
Qed.

(** ** The rendered row *)

Lemma unescaped_cell (b : bool) (x y : str) :
  (forall b', unescaped_pipes b' x = 0) ->
  unescaped_pipes b (x ++ y)
  = unescaped_pipes (ends_with_backslash b x) y.
Proof. intro H. rewrite unescaped_app, H. reflexivity. Qed.

Lemma unescaped_cells (x y : str) :
  (forall b, unescaped_pipes b x = 0) ->
  (forall b, unescaped_pipes b y = 0) ->
  forall b, unescaped_pipes b (x ++ y) = 0.
Proof. intros Hx Hy b. rewrite unescaped_app, Hx, Hy. reflexivity. Qed.

Lemma unescaped_bar (b : bool) (y : str) :
  unescaped_pipes b (lit " | " ++ y) = 1 + unescaped_pipes false y.
Proof. destruct b; reflexivity. Qed.

Lemma unescaped_last_bar (b : bool) : unescaped_pipes b (lit " |") = 1.
Proof. destruct b; reflexivity. Qed.

Lemma project_md_unescaped (name link : str) :
  (forall b, unescaped_pipes b name = 0) ->
  (forall b, unescaped_pipes b link = 0) ->
  forall b,
    unescaped_pipes b
      match link with
      | _ :: _ => lit "**[" ++ name ++ lit "](" ++ link ++ lit ")**"
      | [] => lit "**" ++ name ++ lit "**"
      end = 0.
Proof.
  intros Hn Hl. destruct link as [|c l].
  - apply unescaped_cells; [intros []; reflexivity|].
    apply unescaped_cells; [exact Hn|intros []; reflexivity].
  - apply unescaped_cells; [intros []; reflexivity|].
    apply unescaped_cells; [exact Hn|].
    apply unescaped_cells; [intros []; reflexivity|].
    apply unescaped_cells; [exact Hl|intros []; reflexivity].
Qed.

Lemma unescaped_first_bar (y : str) :
  unescaped_pipes false (lit "| " ++ y) = 1 + unescaped_pipes false y.
Proof. reflexivity. Qed.

Lemma row_pipes (pm date tools tags desc : str) :
  (forall b, unescaped_pipes b pm = 0) ->
  (forall b, unescaped_pipes b date = 0) ->
  (forall b, unescaped_pipes b tools = 0) ->
  (forall b, unescaped_pipes b tags = 0) ->
  (forall b, unescaped_pipes b desc = 0) ->
  unescaped_pipes false
    (lit "| " ++ pm ++ lit " | " ++ date ++ lit " | " ++ tools
     ++ lit " | " ++ tags ++ lit " | " ++ desc ++ lit " |") = 6.
Proof.
  intros H1 H2 H3 H4 H5.
  rewrite unescaped_first_bar.
  rewrite (@unescaped_cell _ _ _ H1), unescaped_bar.
  rewrite (@unescaped_cell _ _ _ H2), unescaped_bar.
  rewrite (@unescaped_cell _ _ _ H3), unescaped_bar.
  rewrite (@unescaped_cell _ _ _ H4), unescaped_bar.
  rewrite (@unescaped_cell _ _ _ H5), unescaped_last_bar.
  reflexivity.
Qed.

(** X3: whatever the fields hold, a rendered row has six pipes that no
    backslash precedes, those that delimit its five cells. *)
Theorem render_row_columns (d : dict) :
  unescaped_pipes false (render_row d) = 6.
Proof.
  unfold render_row. cbv zeta.
  apply row_pipes; try (intro; apply esc_unescaped).
  apply project_md_unescaped; intro; apply esc_unescaped.
Qed.

(** X4: the project cell is the bold name when the link is missing, [None]
    or white space, and the bold name linked to the escaped link
    otherwise. *)
Theorem render_row_project (d : dict) :
  (all_space (shown d (lit "Link")) ->
   render_row d
   = lit "| " ++ (lit "**" ++ esc (dict_get d (lit "Project") (Some []))
                  ++ lit "**") ++ other_cells d)
  /\ (~ all_space (shown d (lit "Link")) ->
      render_row d
      = lit "| " ++ (lit "**[" ++ esc (dict_get d (lit "Project") (Some []))
                     ++ lit "](" ++ esc (dict_get d (lit "Link") (Some []))
                     ++ lit ")**") ++ other_cells d).
Proof.
  unfold shown, render_row, other_cells. cbv zeta.
  pose proof (proj2 (esc_plain (dict_get d (lit "Link") (Some [])))) as E.
  fold (other_cells d).
  destruct (esc (dict_get d (lit "Link") (Some []))) as [|c l] eqn:El.
  - split; intro H; [reflexivity|]. exfalso. apply H. apply E. reflexivity.
  - split; intro H; [|reflexivity]. apply E in H. discriminate.
Qed.

Lemma render_row_project_witness :
  all_space (shown (dict_of_row REQUIRED_COLS [lit "Gamma"]) (lit "Link"))
  /\ render_row (dict_of_row REQUIRED_COLS [lit "Gamma"])
     = lit "| **Gamma** |  |  |  |  |".
Proof.
  assert (H : all_space
                (shown (dict_of_row REQUIRED_COLS [lit "Gamma"]) (lit "Link")))
    by reflexivity.
  split; [exact H|].
  rewrite (proj1 (render_row_project _) H). vm_compute. reflexivity.
Defined.

(** ** Sort keys *)

Lemma digit_not_space (c : ascii) :
  isdigit_char c = true -> isspace_char c = false.
Proof.
  unfold isdigit_char, isspace_char. generalize (code c). intros n H.
  repeat (apply orb_true_iff in H; destruct H as [H | H]);
    try (apply Nat.eqb_eq in H; subst n; reflexivity).
  apply andb_true_iff in H. destruct H as [H1 H2].
  apply Nat.leb_le in H1. apply Nat.leb_le in H2.
  assert (E1 : (n <=? 13) = false) by (apply Nat.leb_gt; lia).
  assert (E2 : (n <=? 32) = false) by (apply Nat.leb_gt; lia).
  assert (E3 : (n =? 133) = false) by (apply Nat.eqb_neq; lia).
  assert (E4 : (n =? 160) = false) by (apply Nat.eqb_neq; lia).
  rewrite E1, E2, E3, E4, !andb_false_r. reflexivity.
Qed.

Lemma strip_key (k : str) : year_month_shape k -> strip k = k.
Proof.
  intros (a & b & c & d & m1 & m2 & -> & H). cbn [forallb] in H.
  repeat match goal with E : _ && _ = true |- _ =>
    apply andb_true_iff in E; destruct E end.
  repeat match goal with E : isdigit_char _ = true |- _ =>
    apply digit_not_space in E end.
  unfold strip. cbn [lstrip].
  match goal with E : isspace_char a = false |- _ => rewrite E end.
  repeat (rewrite rstrip_cons by (assumption || reflexivity)).
  reflexivity.
Qed.

Lemma normalize_shape (d : value) : year_month_shape (normalize_date_for_sort d).
Proof.
  rewrite normalize_unfold. cbv zeta. generalize (strip (or_empty d)). intro s.
  destruct ((length s =? 4) && isdigit s) eqn:E1.
  - apply year_test in E1. destruct E1 as (a & b & c & e & -> & Hd).
    exists a, b, c, e, (chr 49), (chr 50). split; [reflexivity|].
    cbn [forallb] in *.
    repeat match goal with E : _ && _ = true |- _ =>
      apply andb_true_iff in E; destruct E end.
    repeat (apply andb_true_iff; split); assumption || reflexivity.
  - match goal with |- context [if ?t then _ else _] =>
      destruct t eqn:E2 end.
    + apply year_month_test. exact E2.
    + exists (chr 48), (chr 48), (chr 48), (chr 48), (chr 48), (chr 48).
      split; reflexivity.
Qed.

Lemma normalize_of_key (k : str) :
  year_month_shape k -> normalize_date_for_sort (Some k) = k.
Proof.
  intro H. rewrite normalize_unfold. cbv zeta. cbn [or_empty].
  rewrite (strip_key H).
  assert (H1 : (length k =? 4) && isdigit k = false).
  { destruct ((length k =? 4) && isdigit k) eqn:E; [|reflexivity].
    apply year_test in E. exfalso. exact (year_not_year_month E H). }
  rewrite H1. apply year_month_test in H. rewrite H. reflexivity.
Qed.

(** X5: every sort key has the shape [YYYY-MM], normalizing a sort key gives
    it back, and a date is normalized as its stripped form is. *)
Theorem normalize_date_for_sort_key (d : value) :
  year_month_shape (normalize_date_for_sort d)
  /\ length (normalize_date_for_sort d) = 7
  /\ normalize_date_for_sort (Some (normalize_date_for_sort d))
     = normalize_date_for_sort d
  /\ normalize_date_for_sort (Some (strip (or_empty d)))
     = normalize_date_for_sort d.
Proof.
  pose proof (normalize_shape d) as S.
  split; [exact S|]. split; [|split].
  - destruct S as (a & b & c & e & m1 & m2 & -> & _). reflexivity.
  - apply normalize_of_key. exact S.
  - rewrite !normalize_unfold. cbv zeta. cbn [or_empty].
    assert (E : strip (strip (or_empty d)) = strip (or_empty d)).
    { destruct (strip_stripped (or_empty d)) as [L R].
      unfold strip at 1. rewrite L. exact R. }
    rewrite E. reflexivity.
Qed.

(** ** The table *)

Lemma insert_by_ext {A : Type} (key1 key2 : A -> str) (x : A) (l : list A) :
  (forall a, key1 a = key2 a) -> insert_by key1 x l = insert_by key2 x l.
Proof.
  intro H. induction l as [|y t IH]; [reflexivity|].
  cbn [insert_by]. rewrite IH, !H. reflexivity.
Qed.

Lemma sort_by_ext {A : Type} (key1 key2 : A -> str) (l : list A) :
  (forall a, key1 a = key2 a) -> sort_by key1 l = sort_by key2 l.
Proof.
  intro H. induction l as [|x t IH]; [reflexivity|].
  cbn [sort_by]. rewrite IH. apply insert_by_ext. exact H.
Qed.

(** A list in descending order of the keys is left as it is. *)
Lemma sort_by_sorted_id {A : Type} (key : A -> str) (l : list A) :
  StronglySorted (desc key) l -> sort_by key l = l.
Proof.
  induction 1 as [|x t Hs IH Hx]; [reflexivity|].
  cbn [sort_by]. rewrite IH. destruct t as [|y t']; [reflexivity|].
  cbn [insert_by]. inversion Hx as [|? ? Hxy _]. subst.
  unfold desc in Hxy. rewrite Hxy. reflexivity.
Qed.

Lemma sort_key_fold (rows : list loc) (h : heap) (r : loc) :
  sort_key (fold_left set_sort_date rows h) r = sort_key h r.
Proof.
  unfold sort_key. rewrite fold_set_sort_date.
  destruct (existsb (Nat.eqb r) rows); [|reflexivity].
  unfold keyed. rewrite dict_get_set_other by (vm_compute; reflexivity).
  reflexivity.
Qed.

Lemma keyed_fold (rows : list loc) (h : heap) (r : loc) :
  In r rows ->
  keyed (fold_left set_sort_date rows h) r = fold_left set_sort_date rows h r.
Proof.
  intro H. unfold keyed at 1. rewrite sort_key_fold.
  rewrite fold_set_sort_date_in by exact H. unfold keyed.
  apply dict_set_idem.
Qed.

(** X6: a list that is already in descending order of the sort keys is
    rendered, and left, in the order it has. *)
Theorem build_table_sorted_input (now : datetime) (h : heap) (rows : list loc) :
  StronglySorted (desc (sort_key h)) rows ->
  exists block h1,
    build_table now h rows = ret (block, h1, rows)
    /\ block = join nl ((header :: map (fun r => render_row (h r)) rows)
                        ++ [footer now]).
Proof.
  intro H. eexists. eexists. rewrite build_table_eq.
  rewrite (sort_by_sorted_id H). split; reflexivity.
Qed.

Lemma build_table_sorted_input_witness :
  StronglySorted (desc (sort_key (alloc sample_records))) [1; 0]
  /\ exists block h1,
       build_table sample_now (alloc sample_records) [1; 0]
       = ret (block, h1, [1; 0])
       /\ block = join nl ((header :: map (fun r => render_row
                                                      (alloc sample_records r))
                                          [1; 0])
                           ++ [footer sample_now]).
Proof.
  assert (S : StronglySorted (desc (sort_key (alloc sample_records))) [1; 0]).
  { repeat constructor. }
  split; [exact S|]. exact (build_table_sorted_input sample_now S).
Defined.

(** X7: a second call on the store and the list that a first call left
    returns the same block and changes neither the list nor any record. *)
Theorem build_table_twice (now : datetime) (h : heap) (rows : list loc)
    (block : str) (h1 : heap) (rows1 : list loc) :
  build_table now h rows = ret (block, h1, rows1) ->
  exists h2,
    build_table now h1 rows1 = ret (block, h2, rows1)
    /\ forall r, h2 r = h1 r.
Proof.
  rewrite build_table_eq. intro E.
  pose proof (f_equal (fun x : res (str * heap * list loc) =>
                         match x with inr (b, _, _) => b | inl _ => [] end) E)
    as Eb.
  pose proof (f_equal (fun x : res (str * heap * list loc) =>
                         match x with inr (_, m, _) => m | inl _ => h end) E)
    as Eh.
  pose proof (f_equal (fun x : res (str * heap * list loc) =>
                         match x with inr (_, _, l) => l | inl _ => [] end) E)
    as Er.
  cbv beta iota delta [ret] in Eb, Eh, Er. clear E.
  exists (fold_left set_sort_date rows1 h1). rewrite build_table_eq.
  assert (K : sort_by (sort_key h1) rows1 = rows1).
  { rewrite (sort_by_ext (sort_key h1) (sort_key h) rows1)
      by (intro r; rewrite <- Eh; apply sort_key_fold).
    rewrite <- Er. apply sort_by_sorted_id. apply sort_by_sorted. }
  rewrite K. split.
  - rewrite (map_ext (fun r => render_row (h1 r)) (fun r => render_row (h r)))
      by (intro r; rewrite <- Eh; apply render_row_fold).
    rewrite <- Eb, Er. reflexivity.
  - intro r. rewrite fold_set_sort_date.
    destruct (existsb (Nat.eqb r) rows1) eqn:Ex; [|reflexivity].
    apply existsb_eqb_In in Ex. rewrite <- Eh. apply keyed_fold.
    apply (Permutation_in r (Permutation_sym (sort_by_perm (sort_key h) rows))).
    rewrite Er. exact Ex.
Qed.

Lemma build_table_twice_witness :
  exists block h1 rows1 h2,
    build_table sample_now (alloc sample_records) [0; 1]
    = ret (block, h1, rows1)
    /\ build_table sample_now h1 rows1 = ret (block, h2, rows1)
    /\ forall r, h2 r = h1 r.
Proof.
  eexists. eexists. eexists.
  assert (E : build_table sample_now (alloc sample_records) [0; 1]
              = ret (join nl ((header :: map (fun r => render_row
                                                (alloc sample_records r))
                                    (sort_by (sort_key (alloc sample_records))
                                             [0; 1]))
                              ++ [footer sample_now]),
                     fold_left set_sort_date [0; 1] (alloc sample_records),
                     sort_by (sort_key (alloc sample_records)) [0; 1]))
    by reflexivity.
  destruct (build_table_twice _ _ _ E) as [h2 [E2 H2]].
  exists h2. split; [exact E|]. split; [exact E2|exact H2].
Defined.

(** ** Characters of the block *)

Lemma In_lstrip (c : ascii) (s : str) : In c (lstrip s) -> In c s.
Proof.
  intro H. destruct (lstrip_split s) as [w [E _]]. rewrite E.
  apply in_or_app. right. exact H.
Qed.

Lemma In_rstrip (c : ascii) (s : str) : In c (rstrip s) -> In c s.
Proof.
  intro H. destruct (rstrip_split s) as [w [E _]]. rewrite E.
  apply in_or_app. left. exact H.
Qed.

Lemma In_replace_char (c p : ascii) (r s : str) :
  In c (replace_char p r s) -> In c r \/ In c s.
Proof.
  unfold replace_char. intro H. apply in_flat_map in H.
  destruct H as [x [Hx Hc]]. destruct (ascii_eqb x p).
  - left. exact Hc.
  - right. destruct Hc as [<- | []]. exact Hx.
Qed.

Lemma In_esc (c : ascii) (v : value) :
  In c (esc v) -> In c [backslash; chr 124] \/ In c (or_empty v).
Proof.
  unfold esc, strip. intro H.
  apply In_rstrip, In_lstrip in H. apply In_replace_char in H. exact H.
Qed.

Lemma In_join (c : ascii) (sep : str) (l : list str) :
  In c (join sep l) -> In c sep \/ exists x, In x l /\ In c x.
Proof.
  induction l as [|a t IH]; [contradiction|].
  destruct t as [|b t].
  - intro H. right. exists a. split; [left; reflexivity|exact H].
  - change (join sep (a :: b :: t)) with (a ++ sep ++ join sep (b :: t)).
    intro H. apply in_app_or in H. destruct H as [H | H].
    + right. exists a. split; [left; reflexivity|exact H].
    + apply in_app_or in H. destruct H as [H | H]; [left; exact H|].
      destruct (IH H) as [H' | [x [Hx Hc]]]; [left; exact H'|].
      right. exists x. split; [right; exact Hx|exact Hc].
Qed.

(** A pattern whose first character does not occur does not occur. *)
Lemma count_without_head (c : ascii) (m s : str) :
  ~ In c s -> count (c :: m) s = 0.
Proof.
  induction s as [|b s IH]; intro H; [reflexivity|].
  rewrite count_cons. rewrite IH by (intro Hin; apply H; right; exact Hin).
  cbn [startswith]. rewrite ascii_eqb_neq; [reflexivity|].
  intro E. apply H. left. symmetry. exact E.
Qed.

Lemma sentinel_free_without_lt (s : str) :
  ~ In (chr 60) s -> sentinel_free s.
Proof.
  intro H. split.
  - rewrite START_shape. apply count_without_head. exact H.
  - rewrite END_shape. apply count_without_head. exact H.
Qed.

Lemma digit_not_lt (n : nat) : digit n <> chr 60.
Proof.
  intro E. apply (f_equal code) in E. rewrite code_digit in E.
  change (code (chr 60)) with 60 in E.
  pose proof (Nat.mod_upper_bound n 10). lia.
Qed.

Lemma In_pad2 (c : ascii) (n : nat) :
  In c (pad2 n) -> is_ascii_digit c = true.
Proof.
  unfold pad2. intros [<- | [<- | []]]; apply is_ascii_digit_digit.
Qed.

Lemma In_pad4 (c : ascii) (n : nat) :
  In c (pad4 n) -> is_ascii_digit c = true.
Proof.
  unfold pad4. intros [<- | [<- | [<- | [<- | []]]]];
    apply is_ascii_digit_digit.
Qed.

Lemma footer_without_lt (now : datetime) : ~ In (chr 60) (footer now).
Proof.
  unfold footer, strftime. intro H. rewrite !in_app_iff in H.
  repeat match goal with H : _ \/ _ |- _ => destruct H as [H | H] end;
    match type of H with
    | In _ (pad2 _) => apply In_pad2 in H; vm_compute in H; discriminate H
    | In _ (pad4 _) => apply In_pad4 in H; vm_compute in H; discriminate H
    | In _ (lit _) => revert H; apply mem_char_In; vm_compute; reflexivity
    end.
Qed.

Lemma render_row_lt (d : dict) :
  In (chr 60) (render_row d) ->
  exists k, In k REQUIRED_COLS /\ In (chr 60) (shown d k).
Proof.
  unfold render_row, shown. cbv zeta. intro H.
  assert (L : forall k, In k REQUIRED_COLS ->
                In (chr 60) (esc (dict_get d k (Some []))) ->
                exists k', In k' REQUIRED_COLS
                           /\ In (chr 60) (or_empty (dict_get d k' (Some [])))).
  { intros k Hk Hc. apply In_esc in Hc. destruct Hc as [Hc | Hc].
    - exfalso. destruct Hc as [Hc | [Hc | []]]; discriminate Hc.
    - exists k. split; assumption. }
  remember (esc (dict_get d (lit "Link") (Some []))) as link eqn:El.
  destruct link as [|c0 l0]; rewrite !in_app_iff in H;
    repeat match goal with H : _ \/ _ |- _ => destruct H as [H | H] end;
    match type of H with
    | In _ (lit _) =>
        exfalso; revert H; apply mem_char_In; vm_compute; reflexivity
    | In _ (esc (dict_get _ ?k _)) =>
        apply (L k) in H;
        [exact H|repeat (first [left; reflexivity|right])]
    | In _ (_ :: _) =>
        rewrite El in H; apply (L (lit "Link")) in H;
        [exact H|repeat (first [left; reflexivity|right])]
    end.
Qed.

Lemma table_without_lt (now : datetime) (h : heap) (rows : list loc) :
  (forall r k, In r rows -> In k REQUIRED_COLS ->
     ~ In (chr 60) (shown (h r) k)) ->
  ~ In (chr 60)
      (join nl ((header :: map (fun r => render_row (h r))
                               (sort_by (sort_key h) rows))
                ++ [footer now])).
Proof.
  intros H Hin. apply In_join in Hin. destruct Hin as [Hin | [x [Hx Hc]]].
  - destruct Hin as [Hin | []]. discriminate Hin.
  - apply in_app_or in Hx. destruct Hx as [[<- | Hx] | [<- | []]].
    + revert Hc. apply mem_char_In. vm_compute. reflexivity.
    + apply in_map_iff in Hx. destruct Hx as [r [<- Hr]].
      apply render_row_lt in Hc. destruct Hc as [k [Hk Hc]].
      apply (H r k); [|exact Hk|exact Hc].
      apply (Permutation_in r
               (Permutation_sym (sort_by_perm (sort_key h) rows))).
      exact Hr.
    + exact (@footer_without_lt now Hc).
Qed.

(** X8: when no shown field of a record holds the character [<], the block
    does not hold it, and so holds neither sentinel. *)
Theorem build_table_sentinel_free (now : datetime) (h : heap)
    (rows : list loc) :
  (forall r k, In r rows -> In k REQUIRED_COLS ->
     ~ In (chr 60) (shown (h r) k)) ->
  exists block h1 rows1,
    build_table now h rows = ret (block, h1, rows1)
    /\ ~ In (chr 60) block /\ sentinel_free block.
Proof.
  intro H. eexists. eexists. eexists. split; [apply build_table_eq|].
  pose proof (table_without_lt now h rows H) as N.
  split; [exact N|apply sentinel_free_without_lt; exact N].
Qed.

Lemma build_table_sentinel_free_witness :
  exists block h1 rows1,
    build_table sample_now (alloc sample_records) [0; 1]
    = ret (block, h1, rows1)
    /\ ~ In (chr 60) block /\ sentinel_free block.
Proof.
  apply build_table_sentinel_free.
  intros r k Hr Hk.
  destruct Hr as [<- | [<- | []]];
    repeat (destruct Hk as [<- | Hk];
            [intro H; vm_compute in H; intuition discriminate|]);
    destruct Hk.
Defined.

(** ** The splicer on any document *)

Lemma split_from_hd (fuel : nat) (sep s : str) :
  sep <> [] -> length s <= fuel ->
  nth_error (split_from fuel sep s) 0
  = Some match find sep s with
         | Some k => firstn k s
         | None => s
         end.
Proof.
  intros Hsep Hl. destruct fuel as [|n].
  - destruct s; [|simpl in Hl; lia]. cbn [split_from].
    rewrite find_nil by exact Hsep. reflexivity.
  - cbn [split_from]. destruct (find sep s); reflexivity.
Qed.

Lemma split_pieces (sep s : str) (j : nat) :
  sep <> [] -> find sep s = Some j ->
  exists tail,
    split sep s = ret (before_marker sep s :: after_marker sep s :: tail).
Proof.
  intros Hsep Hf. unfold split, before_marker, after_marker. rewrite Hf.
  destruct sep as [|a sep]; [congruence|].
  assert (Hs : s <> []) by (eapply find_Some_nonempty; eassumption).
  destruct (length s) as [|n] eqn:En; [destruct s; [congruence|discriminate]|].
  rewrite (split_from_head _ _ _ Hf). cbv zeta.
  set (rest := skipn (j + length (a :: sep)) s).
  assert (Hl : length rest <= n).
  { unfold rest. rewrite length_skipn. simpl length. lia. }
  pose proof (@split_from_hd n (a :: sep) rest Hsep Hl) as Hh.
  destruct (split_from n (a :: sep) rest) as [|p tail]; [discriminate|].
  cbn [nth_error] in Hh. injection Hh as ->.
  exists tail. reflexivity.
Qed.

Lemma contains_find (m s : str) :
  contains m s = true -> exists i, find m s = Some i.
Proof.
  unfold contains. destruct (find m s) as [i|]; [|discriminate].
  intros _. exists i. reflexivity.
Qed.

(** With both markers in the text the splicer keeps the text before the
    first start marker and the text between the first end marker and the
    next one, whatever the order and the number of the markers. *)
Lemma splice_general (text block start_marker end_marker : str) :
  start_marker <> [] -> end_marker <> [] ->
  contains start_marker text = true -> contains end_marker text = true ->
  insert_between_markers text block start_marker end_marker
  = ret (rstrip (before_marker start_marker text)
         ++ (start_marker ++ nl ++ block ++ nl ++ end_marker)
         ++ lstrip (after_marker end_marker text)).
Proof.
  intros Hs He Cs Ce.
  destruct (contains_find _ _ Cs) as [i Fi].
  destruct (contains_find _ _ Ce) as [j Fj].
  destruct (@split_pieces _ _ _ Hs Fi) as [t0 S0].
  destruct (@split_pieces _ _ _ He Fj) as [t1 S1].
  unfold insert_between_markers. rewrite Cs, Ce, S0, S1.
  reflexivity.
Qed.

Lemma append_general (text block start_marker end_marker : str) :
  contains start_marker text && contains end_marker text = false ->
  insert_between_markers text block start_marker end_marker
  = ret ((if negb (str_eqb text []) && negb (endswith text (nl ++ nl))
          then text ++ nl else text)
         ++ nl ++ (start_marker ++ nl ++ block ++ nl ++ end_marker) ++ nl).
Proof. intro H. unfold insert_between_markers. rewrite H. reflexivity. Qed.

(** X9: with markers that are not empty the splicer never raises, and its
    output holds the new section; when both markers occur in the text, in
    any order and number, the output is the stripped text before the first
    start marker, the section, and the stripped text between the first end
    marker and the next one. *)
Theorem insert_between_markers_general
    (text block start_marker end_marker : str) :
  start_marker <> [] -> end_marker <> [] ->
  (exists pre post,
     insert_between_markers text block start_marker end_marker
     = ret (pre ++ (start_marker ++ nl ++ block ++ nl ++ end_marker) ++ post))
  /\ (contains start_marker text = true -> contains end_marker text = true ->
      insert_between_markers text block start_marker end_marker
      = ret (rstrip (before_marker start_marker text)
             ++ (start_marker ++ nl ++ block ++ nl ++ end_marker)
             ++ lstrip (after_marker end_marker text))).
Proof.
  intros Hs He. split.
  - destruct (contains start_marker text && contains end_marker text) eqn:E.
    + apply andb_true_iff in E. destruct E as [Cs Ce].
      eexists. eexists. apply splice_general; assumption.
    + rewrite (append_general _ _ _ _ E).
      eexists. exists nl. rewrite app_assoc. reflexivity.
  - apply splice_general; assumption.
Qed.

Lemma insert_between_markers_general_witness :
  insert_between_markers sample_readme (lit "new table") START END
  = ret (rstrip (before_marker START sample_readme)
         ++ (START ++ nl ++ lit "new table" ++ nl ++ END)
         ++ lstrip (after_marker END sample_readme))
  /\ before_marker START sample_readme = lit "# Portfolio" ++ nl ++ nl
  /\ after_marker END sample_readme = nl ++ nl ++ lit "Contact" ++ nl.
Proof.
  split; [|split; vm_compute; reflexivity].
  apply (@insert_between_markers_general sample_readme (lit "new table")
           START END); try discriminate; vm_compute; reflexivity.
Defined.

(** X10: an empty marker makes the splicer raise [ValueError] as soon as
    both markers count as present; the empty marker always does. *)
Theorem insert_between_markers_empty_marker
    (text block start_marker end_marker : str) :
  start_marker = [] \/ end_marker = [] ->
  contains start_marker text = true -> contains end_marker text = true ->
  insert_between_markers text block start_marker end_marker
  = raise (ValueError (lit "empty separator")).
Proof.
  intros H Cs Ce. unfold insert_between_markers. rewrite Cs, Ce.
  cbn [andb]. destruct start_marker as [|a s]; [reflexivity|].
  destruct H as [H | H]; [discriminate|]. subst end_marker.
  destruct (contains_find _ _ Cs) as [i Fi].
  destruct (@split_pieces (a :: s) text i) as [t0 S0];
    [discriminate|exact Fi|].
  rewrite S0. reflexivity.
Qed.

Lemma insert_between_markers_empty_marker_witness :
  insert_between_markers sample_readme (lit "t") START []
  = raise (ValueError (lit "empty separator")).
Proof.
  apply insert_between_markers_empty_marker.
  - right. reflexivity.
  - vm_compute. reflexivity.
  - reflexivity.
Defined.

Lemma lstrip_app_nonspace (l r : str) (c : ascii) :
  isspace_char c = false -> lstrip (l ++ c :: r) = lstrip l ++ c :: r.
Proof.
  intro Hc. induction l as [|a l IH]; simpl.
  - rewrite Hc. reflexivity.
  - destruct (isspace_char a); [exact IH|reflexivity].
Qed.

Lemma rstrip_app_nonspace (x y : str) (c : ascii) :
  isspace_char c = false -> rstrip ((x ++ [c]) ++ y) = (x ++ [c]) ++ rstrip y.
Proof.
  intro Hc. unfold rstrip. rewrite !rev_app_distr. simpl rev.
  change ([c] ++ rev x) with (c :: rev x).
  rewrite lstrip_app_nonspace by exact Hc.
  rewrite rev_app_distr. simpl rev. rewrite rev_involutive, <- app_assoc.
  reflexivity.
Qed.

Lemma lstrip_before_sentinel (b w c : str) :
  is_sentinel w -> lstrip (b ++ w ++ c) = lstrip b ++ w ++ c.
Proof.
  intros [-> | ->].
  - rewrite START_shape. apply lstrip_app_nonspace. reflexivity.
  - rewrite END_shape. apply lstrip_app_nonspace. reflexivity.
Qed.

Lemma rstrip_after_sentinel (a w b : str) :
  is_sentinel w -> rstrip (a ++ w ++ b) = a ++ w ++ rstrip b.
Proof.
  intros [-> | ->].
  - rewrite START_shape.
    change (chr 60 :: removelast (tl START) ++ [chr 62])
      with ((chr 60 :: removelast (tl START)) ++ [chr 62]).
    rewrite <- !app_assoc. rewrite !(app_assoc (chr 60 :: _)).
    rewrite !(app_assoc a). rewrite rstrip_app_nonspace by reflexivity.
    reflexivity.
  - rewrite END_shape.
    change (chr 60 :: removelast (tl END) ++ [chr 62])
      with ((chr 60 :: removelast (tl END)) ++ [chr 62]).
    rewrite <- !app_assoc. rewrite !(app_assoc (chr 60 :: _)).
    rewrite !(app_assoc a). rewrite rstrip_app_nonspace by reflexivity.
    reflexivity.
Qed.

Lemma before_marker_at (m x y : str) :
  find m (x ++ m ++ y) = Some (length x) ->
  before_marker m (x ++ m ++ y) = x.
Proof.
  intro H. unfold before_marker. rewrite H. apply firstn_length_app.
Qed.

Lemma after_marker_at (m x y : str) :
  find m (x ++ m ++ y) = Some (length x) ->
  after_marker m (x ++ m ++ y)
  = match find m y with
    | Some k => firstn k y
    | None => y
    end.
Proof.
  intro H. unfold after_marker. rewrite H. cbv zeta.
  rewrite app_assoc, <- length_app, skipn_length_app. reflexivity.
Qed.

Lemma START_nonempty : START <> [].
Proof. destruct START_clean as (H & _). exact H. Qed.

Lemma END_nonempty : END <> [].
Proof. destruct END_clean as (H & _). exact H. Qed.

Lemma contains_at (m x y : str) (i : nat) :
  find m (x ++ m ++ y) = Some i -> contains m (x ++ m ++ y) = true.
Proof. intro H. unfold contains. rewrite H. reflexivity. Qed.

(** X11: when the end sentinel comes before the start sentinel the splicer
    keeps both, puts the section between them and writes the text that was
    between them on both sides of it; the output has each sentinel twice. *)
Theorem insert_between_markers_reversed (a b c block : str) :
  sentinel_free a -> sentinel_free b -> sentinel_free c ->
  insert_between_markers (a ++ END ++ b ++ START ++ c) block START END
  = ret (a ++ END ++ rstrip b ++ section_of block ++ lstrip b ++ START ++ c)
  /\ (sentinel_free block ->
      count START (a ++ END ++ rstrip b ++ section_of block
                   ++ lstrip b ++ START ++ c) = 2
      /\ count END (a ++ END ++ rstrip b ++ section_of block
                    ++ lstrip b ++ START ++ c) = 2).
Proof.
  intros [As Ae] [Bs Be] [Cs Ce]. split.
  - assert (F1 : find START ((a ++ END ++ b) ++ START ++ c)
                 = Some (length (a ++ END ++ b))).
    { apply find_START.
      rewrite (count_word a b START_clean (or_intror eq_refl)).
      rewrite count_START_END. lia. }
    assert (F2 : find END (a ++ END ++ (b ++ START ++ c)) = Some (length a))
      by (apply find_END; exact Ae).
    assert (N : find END (b ++ START ++ c) = None).
    { apply find_None_count.
      rewrite (count_word b c END_clean (or_introl eq_refl)).
      rewrite count_END_START. lia. }
    assert (E : a ++ END ++ b ++ START ++ c = (a ++ END ++ b) ++ START ++ c)
      by (rewrite <- !app_assoc; reflexivity).
    rewrite splice_general.
    + rewrite (after_marker_at _ _ _ F2), N.
      rewrite E, (before_marker_at _ _ _ F1).
      rewrite (rstrip_after_sentinel a b (or_intror eq_refl)).
      rewrite (lstrip_before_sentinel b c (or_introl eq_refl)).
      unfold section_of. rewrite <- !app_assoc. reflexivity.
    + exact START_nonempty.
    + exact END_nonempty.
    + rewrite E. exact (contains_at _ _ _ F1).
    + exact (contains_at _ _ _ F2).
  - intros [Ks Ke].
    pose proof (count_rstrip START b Bs) as Rs.
    pose proof (count_rstrip END b Be) as Re.
    pose proof (count_lstrip START b Bs) as Ls.
    pose proof (count_lstrip END b Be) as Le.
    split.
    + rewrite (count_word a _ START_clean (or_intror eq_refl)).
      rewrite (count_section (rstrip b) block _ START_clean).
      rewrite (count_word (lstrip b) c START_clean (or_introl eq_refl)).
      rewrite count_START_START, count_START_END. lia.
    + rewrite (count_word a _ END_clean (or_intror eq_refl)).
      rewrite (count_section (rstrip b) block _ END_clean).
      rewrite (count_word (lstrip b) c END_clean (or_introl eq_refl)).
      rewrite count_END_START, count_END_END. lia.
Qed.

Lemma insert_between_markers_reversed_witness :
  insert_between_markers
    (lit "top" ++ END ++ lit " mid " ++ START ++ lit "end") (lit "t") START END
  = ret (lit "top" ++ END ++ rstrip (lit " mid ") ++ section_of (lit "t")
         ++ lstrip (lit " mid ") ++ START ++ lit "end").
Proof.
  apply insert_between_markers_reversed; split; vm_compute; reflexivity.
Defined.

(** X12: when a second end sentinel follows the first, the splicer keeps
    only the text between the two; the second end sentinel and all that
    follows it are dropped. *)
Theorem insert_between_markers_second_end
    (block before between after lost : str) :
  count START before = 0 -> count END before = 0 ->
  count END between = 0 -> count END after = 0 ->
  insert_between_markers
    (before ++ START ++ between ++ END ++ after ++ END ++ lost)
    block START END
  = ret (rstrip before ++ section_of block ++ lstrip after).
Proof.
  intros Hs He Hm Ha.
  assert (F1 : find START (before ++ START
                           ++ (between ++ END ++ after ++ END ++ lost))
               = Some (length before)) by (apply find_START; exact Hs).
  assert (F2 : find END ((before ++ START ++ between)
                         ++ END ++ (after ++ END ++ lost))
               = Some (length (before ++ START ++ between))).
  { apply find_END. apply managed_count_END_front; assumption. }
  assert (F3 : find END (after ++ END ++ lost) = Some (length after))
    by (apply find_END; exact Ha).
  assert (E : before ++ START ++ between ++ END ++ after ++ END ++ lost
              = (before ++ START ++ between) ++ END ++ (after ++ END ++ lost))
    by (rewrite <- !app_assoc; reflexivity).
  rewrite splice_general.
  - rewrite (before_marker_at _ _ _ F1).
    rewrite E, (after_marker_at _ _ _ F2), F3, firstn_length_app.
    reflexivity.
  - exact START_nonempty.
  - exact END_nonempty.
  - exact (contains_at _ _ _ F1).
  - rewrite E. exact (contains_at _ _ _ F2).
Qed.

Lemma insert_between_markers_second_end_witness :
  insert_between_markers
    (lit "a" ++ START ++ lit "b" ++ END ++ lit "c" ++ END ++ lit "d")
    (lit "t") START END
  = ret (rstrip (lit "a") ++ section_of (lit "t") ++ lstrip (lit "c")).
Proof.
  apply insert_between_markers_second_end; vm_compute; reflexivity.
Defined.

(** X13: on a document with no sentinel, or with one start sentinel followed
    by one end sentinel, and a block with no sentinel, the output of the
    second run is a fixed point: a third run returns it unchanged. *)
Theorem insert_between_markers_stabilises (text block : str) :
  document text -> sentinel_free block ->
  exists out1 out2,
    insert_between_markers text block START END = ret out1
    /\ insert_between_markers out1 block START END = ret out2
    /\ insert_between_markers out2 block START END = ret out2.
Proof.
  intros Hd Hb.
  destruct (splice_document Hd Hb) as (B & M & A & E1 & [Bs Be] & [Ms Me] & [As Ae]).
  assert (Hm : managed (B ++ START ++ M ++ END ++ A) B M A).
  { unfold managed. repeat split; assumption. }
  destruct Hb as [_ Hbe].
  destruct (splice_twice block Hm Hbe) as [out2 [E2 E3]].
  exists (B ++ START ++ M ++ END ++ A), out2.
  split; [exact E1|]. split; [exact E2|exact E3].
Qed.

Lemma insert_between_markers_stabilises_witness :
  exists out1 out2,
    insert_between_markers plain_readme (lit "table") START END = ret out1
    /\ insert_between_markers out1 (lit "table") START END = ret out2
    /\ insert_between_markers out2 (lit "table") START END = ret out2.
Proof.
  apply insert_between_markers_stabilises.
  - left. split; vm_compute; reflexivity.
  - split; vm_compute; reflexivity.
Defined.

(** ** Records of the loader *)

Lemma assoc_lookup_app_None (k : str) (l1 l2 : list (str * value)) :
  assoc_lookup k l1 = None -> assoc_lookup k l2 = None ->
  assoc_lookup k (l1 ++ l2) = None.
Proof.
  induction l1 as [|[k0 v0] t IH]; simpl; intros H1 H2; [exact H2|].
  destruct (str_eqb k k0); [discriminate|]. apply IH; assumption.
Qed.

Lemma fold_store_fresh (U acc : list (str * value)) :
  NoDup (map fst U) ->
  (forall k, In k (map fst U) -> assoc_lookup k acc = None) ->
  fold_left store U acc = acc ++ U.
Proof.
  revert acc. induction U as [|[k v] U IH]; intros acc Hn Hf.
  - rewrite app_nil_r. reflexivity.
  - cbn [fold_left]. unfold store at 2. cbn [fst snd].
    rewrite assoc_set_fresh by (apply Hf; left; reflexivity).
    inversion Hn as [|? ? Hk Hn']. subst.
    rewrite IH.
    + rewrite <- app_assoc. reflexivity.
    + exact Hn'.
    + intros k' Hk'. apply assoc_lookup_app_None.
      * apply Hf. right. exact Hk'.
      * simpl. rewrite str_eqb_neq; [reflexivity|].
        intro E. subst k'. contradiction.
Qed.

Lemma updates_combine (names row : list str) :
  updates names row
  = combine names (map Some row ++ repeat None (length names - length row)).
Proof.
  unfold updates. revert row. induction names as [|a t IH]; intro row.
  - rewrite skipn_nil. reflexivity.
  - destruct row as [|x r].
    + specialize (IH []). rewrite combine_nil in IH.
      cbn [combine map app length skipn] in *.
      rewrite Nat.sub_0_r in *. cbn [repeat combine]. f_equal. exact IH.
    + cbn [combine map app length skipn Nat.sub]. f_equal. apply IH.
Qed.

Lemma map_fst_updates (names row : list str) :
  map fst (updates names row) = names.
Proof.
  rewrite updates_combine. revert row.
  induction names as [|a t IH]; intro row; [reflexivity|].
  destruct row as [|x r].
  - specialize (IH []). cbn [map app length Nat.sub repeat combine fst] in *.
    rewrite Nat.sub_0_r in IH. f_equal. exact IH.
  - cbn [map app length Nat.sub combine fst]. f_equal. apply IH.
Qed.

(** X14: under a header without repeated names the record of a row pairs
    the names, in order, with the cells of the row, followed by [None] for
    the names that the row is too short for; cells beyond the header go
    under the key [None]. *)
Theorem dict_of_row_items (names row : list str) :
  NoDup names ->
  items (dict_of_row names row)
  = combine names (map Some row ++ repeat None (length names - length row))
  /\ map fst (items (dict_of_row names row)) = names
  /\ rest (dict_of_row names row)
     = (if length names <? length row then Some (skipn (length names) row)
        else None)
  /\ (length row = length names ->
      map snd (items (dict_of_row names row)) = map Some row).
Proof.
  intro Hn.
  assert (E : items (dict_of_row names row) = updates names row).
  { rewrite items_dict_of_row. rewrite fold_store_fresh.
    - reflexivity.
    - rewrite map_fst_updates. exact Hn.
    - intros k _. reflexivity. }
  split; [rewrite E; apply updates_combine|].
  split; [rewrite E; apply map_fst_updates|]. split.
  - unfold dict_of_row. destruct (length names <? length row); reflexivity.
  - intro Hl. rewrite E, updates_combine, Hl, Nat.sub_diag. cbn [repeat].
    rewrite app_nil_r.
    assert (G : forall (l1 : list str) (l2 : list value),
               length l2 = length l1 -> map snd (combine l1 l2) = l2).
    { induction l1 as [|a l1 IH]; intros [|b l2] H; try discriminate;
        [reflexivity|]. cbn [combine map snd]. f_equal. apply IH.
      simpl in H. lia. }
    apply G. rewrite length_map. exact Hl.
Qed.

Lemma dict_of_row_items_witness :
  NoDup REQUIRED_COLS
  /\ items (dict_of_row REQUIRED_COLS [lit "Gamma"; lit "2020"])
     = [(lit "Project", Some (lit "Gamma")); (lit "Date", Some (lit "2020"));
        (lit "Tools", None); (lit "Tags", None); (lit "Description", None);
        (lit "Link", None)].
Proof.
  assert (N : NoDup REQUIRED_COLS).
  { repeat constructor; simpl; intuition discriminate. }
  split; [exact N|].
  rewrite (proj1 (dict_of_row_items [lit "Gamma"; lit "2020"] N)).
  reflexivity.
Defined.

(** ** Runs of the entry point *)

Lemma insert_default_total (text block : str) :
  exists pre post,
    insert_between_markers text block START END
    = ret (pre ++ section_of block ++ post).
Proof.
  destruct (contains START text && contains END text) eqn:E.
  - apply andb_true_iff in E. destruct E as [Cs Ce].
    eexists. eexists.
    apply (splice_general text block START_nonempty END_nonempty Cs Ce).
  - rewrite (append_branch _ _ E). exists (text ++ separator text), nl.
    rewrite <- !app_assoc. reflexivity.
Qed.

Lemma In_firstn (c : ascii) (n : nat) (s : str) : In c (firstn n s) -> In c s.
Proof.
  intro H. rewrite <- (firstn_skipn n s). apply in_or_app. left. exact H.
Qed.

Lemma In_skipn (c : ascii) (n : nat) (s : str) : In c (skipn n s) -> In c s.
Proof.
  intro H. rewrite <- (firstn_skipn n s). apply in_or_app. right. exact H.
Qed.

Lemma In_before_marker (c : ascii) (m s : str) :
  In c (before_marker m s) -> In c s.
Proof.
  unfold before_marker. destruct (find m s); [apply In_firstn|tauto].
Qed.

Lemma In_after_marker (c : ascii) (m s : str) :
  In c (after_marker m s) -> In c s.
Proof.
  unfold after_marker. destruct (find m s) as [j|]; [|contradiction].
  cbv zeta. destruct (find m (skipn (j + length m) s)); intro H.
  - apply In_firstn in H. apply In_skipn in H. exact H.
  - apply In_skipn in H. exact H.
Qed.

Lemma ret_inj (A : Type) (a b : A) : ret a = ret b -> a = b.
Proof. intro H. injection H as H. exact H. Qed.

(** The splicer brings no carriage return of its own. *)
Lemma insert_default_no_cr (text block out : str) :
  ~ In (chr 13) text -> ~ In (chr 13) block ->
  insert_between_markers text block START END = ret out ->
  ~ In (chr 13) out.
Proof.
  intros Ht Hb E.
  destruct (contains START text && contains END text) eqn:C.
  - apply andb_true_iff in C. destruct C as [Cs Ce].
    rewrite (splice_general text block START_nonempty END_nonempty Cs Ce) in E.
    apply ret_inj in E. subst out.
    apply (@splice_no_cr block (before_marker START text)
             (after_marker END text)); [| |exact Hb]; intro H; apply Ht.
    + exact (In_before_marker _ _ _ H).
    + exact (In_after_marker _ _ _ H).
  - rewrite (append_branch _ _ C) in E. apply ret_inj in E. subst out.
    intro H. apply in_app_or in H. destruct H as [H | H]; [exact (Ht H)|].
    apply in_app_or in H. destruct H as [H | H]; [|apply in_app_or in H;
                                                    destruct H as [H | H]].
    + unfold separator in H.
      destruct (str_eqb text [] || endswith text (nl ++ nl));
        revert H; apply mem_char_In; reflexivity.
    + exact (section_no_cr Hb H).
    + revert H. apply mem_char_In. reflexivity.
Qed.

Lemma read_readme_no_cr (fs : files) : ~ In (chr 13) (read_readme fs).
Proof.
  unfold read_readme. destruct (readme_file fs) as [t|].
  - apply universal_newlines_no_cr.
  - intros [].
Qed.

(** One run, given what its three steps return. *)
Lemma main_step (now : datetime) (path : str) (fs : files)
    (rows : list dict) (block : str) (h1 : heap) (rows1 : list loc)
    (out : str) :
  read_csv_rows path (csv_file fs) = ret rows ->
  build_table now (alloc rows) (seq 0 (length rows)) = ret (block, h1, rows1) ->
  insert_between_markers (read_readme fs) block START END = ret out ->
  exists fs1 msg1,
    main now path fs = ret (fs1, msg1)
    /\ csv_file fs1 = csv_file fs
    /\ (~ In (chr 13) out -> read_readme fs1 = out)
    /\ ((msg1 = lit "No README changes detected." /\ fs1 = fs
         /\ read_readme fs = out)
        \/ (msg1 = lit "README updated from CSV."
            /\ readme_file fs1 = Some out /\ read_readme fs <> out)).
Proof.
  intros H1 H2 H3.
  rewrite (@main_unfold now path fs rows block h1 rows1 out H1 H2 H3).
  destruct (str_eqb out (read_readme fs)) eqn:E; cbn [negb].
  - apply str_eqb_eq in E. exists fs, (lit "No README changes detected.").
    split; [reflexivity|]. split; [reflexivity|]. split.
    + intros _. symmetry. exact E.
    + left. split; [reflexivity|]. split; [reflexivity|]. symmetry. exact E.
  - exists (mkFiles (csv_file fs) (Some out)), (lit "README updated from CSV.").
    split; [reflexivity|]. split; [reflexivity|]. split.
    + intro N. apply (@universal_newlines_id _ N).
    + right. split; [reflexivity|]. split; [reflexivity|].
      intro R. rewrite R in E. rewrite str_eqb_refl in E. discriminate.
Qed.

(** X16: a run that succeeds leaves the CSV file as it was; the text that
    the splicer returns holds the section of the block; the run reports no
    change and leaves the files as they were when that text is the text it
    read, and otherwise stores that text in the README and reports an
    update. *)
Theorem main_success (now : datetime) (path : str) (fs fs1 : files)
    (msg : str) :
  main now path fs = ret (fs1, msg) ->
  exists rows block h1 rows1 new_text,
    read_csv_rows path (csv_file fs) = ret rows
    /\ build_table now (alloc rows) (seq 0 (length rows))
       = ret (block, h1, rows1)
    /\ insert_between_markers (read_readme fs) block START END = ret new_text
    /\ csv_file fs1 = csv_file fs
    /\ mentions new_text (section_of block)
    /\ ((msg = lit "No README changes detected." /\ fs1 = fs
         /\ read_readme fs = new_text)
        \/ (msg = lit "README updated from CSV."
            /\ readme_file fs1 = Some new_text
            /\ read_readme fs <> new_text)).
Proof.
  intro H.
  destruct (read_csv_rows path (csv_file fs)) as [e' | rows] eqn:R.
  - unfold main in H. rewrite R in H. cbn [bind] in H. discriminate H.
  - destruct (insert_default_total
                (read_readme fs)
                (join nl ((header :: map (fun r => render_row (alloc rows r))
                                         (sort_by (sort_key (alloc rows))
                                                  (seq 0 (length rows))))
                          ++ [footer now])))
      as (pre & post & I).
    destruct (main_step now path fs R (build_table_eq _ _ _) I)
      as (fs1' & msg1 & M & C & _ & D).
    rewrite M in H. injection H as -> ->.
    eexists. eexists. eexists. eexists. eexists.
    split; [reflexivity|]. split; [apply build_table_eq|].
    split; [exact I|]. split; [exact C|]. split; [|exact D].
    exists pre, post. reflexivity.
Qed.

Lemma main_success_witness :
  exists fs1 msg rows block h1 rows1 new_text,
    main sample_now sample_path sample_files = ret (fs1, msg)
    /\ read_csv_rows sample_path (csv_file sample_files) = ret rows
    /\ build_table sample_now (alloc rows) (seq 0 (length rows))
       = ret (block, h1, rows1)
    /\ insert_between_markers (read_readme sample_files) block START END
       = ret new_text
    /\ mentions new_text (section_of block).
Proof.
  destruct (main sample_now sample_path sample_files) as [e | [fs1 msg]] eqn:M.
  - vm_compute in M. discriminate M.
  - destruct (main_success _ _ _ M)
      as (rows & block & h1 & rows1 & new_text & R & B & I & _ & Me & _).
    exists fs1, msg, rows, block, h1, rows1, new_text.
    repeat split; assumption.
Defined.

Lemma alloc_shown (P : dict -> str -> Prop) (rows : list dict) :
  (forall r k, In r rows -> In k REQUIRED_COLS -> P r k) ->
  forall l k, In l (seq 0 (length rows)) -> In k REQUIRED_COLS ->
    P (alloc rows l) k.
Proof.
  intros H l k Hl Hk. apply H; [|exact Hk].
  unfold alloc. apply nth_In. apply in_seq in Hl. lia.
Qed.

Lemma footer_without_cr (now : datetime) : ~ In (chr 13) (footer now).
Proof.
  unfold footer, strftime. intro H. rewrite !in_app_iff in H.
  repeat match goal with H : _ \/ _ |- _ => destruct H as [H | H] end;
    match type of H with
    | In _ (pad2 _) => apply In_pad2 in H; vm_compute in H; discriminate H
    | In _ (pad4 _) => apply In_pad4 in H; vm_compute in H; discriminate H
    | In _ (lit _) => revert H; apply mem_char_In; vm_compute; reflexivity
    end.
Qed.

Lemma render_row_cr (d : dict) :
  In (chr 13) (render_row d) ->
  exists k, In k REQUIRED_COLS /\ In (chr 13) (shown d k).
Proof.
  unfold render_row, shown. cbv zeta. intro H.
  assert (L : forall k, In k REQUIRED_COLS ->
                In (chr 13) (esc (dict_get d k (Some []))) ->
                exists k', In k' REQUIRED_COLS
                           /\ In (chr 13) (or_empty (dict_get d k' (Some [])))).
  { intros k Hk Hc. apply In_esc in Hc. destruct Hc as [Hc | Hc].
    - exfalso. destruct Hc as [Hc | [Hc | []]]; discriminate Hc.
    - exists k. split; assumption. }
  remember (esc (dict_get d (lit "Link") (Some []))) as link eqn:El.
  destruct link as [|c0 l0]; rewrite !in_app_iff in H;
    repeat match goal with H : _ \/ _ |- _ => destruct H as [H | H] end;
    match type of H with
    | In _ (lit _) =>
        exfalso; revert H; apply mem_char_In; vm_compute; reflexivity
    | In _ (esc (dict_get _ ?k _)) =>
        apply (L k) in H;
        [exact H|repeat (first [left; reflexivity|right])]
    | In _ (_ :: _) =>
        rewrite El in H; apply (L (lit "Link")) in H;
        [exact H|repeat (first [left; reflexivity|right])]
    end.
Qed.

(** The block holds a carriage return only when a shown field does. *)
Lemma table_without_cr (now : datetime) (h : heap) (rows : list loc) :
  (forall r k, In r rows -> In k REQUIRED_COLS ->
     ~ In (chr 13) (shown (h r) k)) ->
  ~ In (chr 13)
      (join nl ((header :: map (fun r => render_row (h r))
                               (sort_by (sort_key h) rows))
                ++ [footer now])).
Proof.
  intros H Hin. apply In_join in Hin. destruct Hin as [Hin | [x [Hx Hc]]].
  - destruct Hin as [Hin | []]. discriminate Hin.
  - apply in_app_or in Hx. destruct Hx as [[<- | Hx] | [<- | []]].
    + revert Hc. apply mem_char_In. vm_compute. reflexivity.
    + apply in_map_iff in Hx. destruct Hx as [r [<- Hr]].
      apply render_row_cr in Hc. destruct Hc as [k [Hk Hc]].
      apply (H r k); [|exact Hk|exact Hc].
      apply (Permutation_in r
               (Permutation_sym (sort_by_perm (sort_key h) rows))).
      exact Hr.
    + exact (@footer_without_cr now Hc).
Qed.

(** X17: when the CSV is valid and no shown field holds the character [<]
    or a carriage return, and the README as it is read is empty, has no
    sentinel, or has one start sentinel followed by one end sentinel, the
    third of three runs with the same input and clock reports no change and
    writes nothing. *)
Theorem main_third_run (now : datetime) (path : str) (fs : files)
    (rows : list dict) :
  read_csv_rows path (csv_file fs) = ret rows ->
  (forall r k, In r rows -> In k REQUIRED_COLS ->
     ~ In (chr 60) (shown r k) /\ ~ In (chr 13) (shown r k)) ->
  document (read_readme fs) ->
  exists fs1 msg1 fs2 msg2,
    main now path fs = ret (fs1, msg1)
    /\ main now path fs1 = ret (fs2, msg2)
    /\ main now path fs2 = ret (fs2, lit "No README changes detected.").
Proof.
  intros R Hf Hd.
  pose proof (build_table_eq now (alloc rows) (seq 0 (length rows))) as B.
  set (block := join nl ((header :: map (fun r => render_row (alloc rows r))
                                        (sort_by (sort_key (alloc rows))
                                                 (seq 0 (length rows))))
                         ++ [footer now])) in *.
  assert (Hb : sentinel_free block).
  { apply sentinel_free_without_lt. apply table_without_lt.
    apply (@alloc_shown (fun r k => ~ In (chr 60) (shown r k))).
    intros r k Hr Hk. exact (proj1 (Hf r k Hr Hk)). }
  assert (Hc : ~ In (chr 13) block).
  { apply table_without_cr.
    apply (@alloc_shown (fun r k => ~ In (chr 13) (shown r k))).
    intros r k Hr Hk. exact (proj2 (Hf r k Hr Hk)). }
  destruct (splice_document Hd Hb)
    as (B0 & M0 & A0 & E1 & [Bs Be] & [Ms Me] & [As Ae]).
  assert (Hm : managed (B0 ++ START ++ M0 ++ END ++ A0) B0 M0 A0).
  { unfold managed. repeat split; assumption. }
  destruct (splice_twice block Hm (proj2 Hb)) as [out2 [E2 E3]].
  pose proof (@insert_default_no_cr _ _ _ (@read_readme_no_cr fs) Hc E1) as N1.
  pose proof (@insert_default_no_cr _ _ _ N1 Hc E2) as N2.
  destruct (main_step now path fs R B E1) as (fs1 & msg1 & M1 & C1 & R1 & _).
  specialize (R1 N1).
  assert (R' : read_csv_rows path (csv_file fs1) = ret rows)
    by (rewrite C1; exact R).
  assert (I2 : insert_between_markers (read_readme fs1) block START END
               = ret out2) by (rewrite R1; exact E2).
  destruct (main_step now path fs1 R' B I2) as (fs2 & msg2 & M2 & C2 & R2 & _).
  specialize (R2 N2).
  assert (R'' : read_csv_rows path (csv_file fs2) = ret rows)
    by (rewrite C2; exact R').
  assert (I3 : insert_between_markers (read_readme fs2) block START END
               = ret out2) by (rewrite R2; exact E3).
  destruct (main_step now path fs2 R'' B I3)
    as (fs3 & msg3 & M3 & _ & _ & [(-> & -> & _) | (_ & _ & N)]).
  - exists fs1, msg1, fs2, msg2. repeat split; assumption.
  - contradiction.
Qed.

Lemma main_third_run_witness :
  exists fs1 msg1 fs2 msg2,
    main sample_now sample_path fresh_files = ret (fs1, msg1)
    /\ main sample_now sample_path fs1 = ret (fs2, msg2)
    /\ main sample_now sample_path fs2
       = ret (fs2, lit "No README changes detected.").
Proof.
  apply (@main_third_run sample_now sample_path fresh_files sample_records).
  - reflexivity.
  - intros r k Hr Hk.
    destruct Hr as [<- | [<- | []]];
      repeat (destruct Hk as [<- | Hk];
              [split; intro H; vm_compute in H; intuition discriminate|]);
      destruct Hk.
  - left. split; vm_compute; reflexivity.
Defined.

(** X23: when the block holds a carriage return, which a cell of the CSV
    can bring, the run writes the README and reports an update whatever
    the README holds: the text that is read holds no carriage return, so
    it differs from the spliced text; the next run finds the same. *)
Theorem main_carriage_return (now : datetime) (path : str) (fs : files)
    (rows : list dict) (block : str) (h1 : heap) (rows1 : list loc) :
  read_csv_rows path (csv_file fs) = ret rows ->
  build_table now (alloc rows) (seq 0 (length rows)) = ret (block, h1, rows1) ->
  In (chr 13) block ->
  exists new_text,
    main now path fs
    = ret (mkFiles (csv_file fs) (Some new_text),
           lit "README updated from CSV.")
    /\ exists new_text',
         main now path (mkFiles (csv_file fs) (Some new_text))
         = ret (mkFiles (csv_file fs) (Some new_text'),
                lit "README updated from CSV.").
Proof.
  intros R B Hc.
  assert (G : forall fs', csv_file fs' = csv_file fs ->
                exists new_text,
                  main now path fs'
                  = ret (mkFiles (csv_file fs) (Some new_text),
                         lit "README updated from CSV.")).
  { intros fs' Ec.
    destruct (insert_default_total (read_readme fs') block)
      as (pre & post & I).
    exists (pre ++ section_of block ++ post).
    assert (R' : read_csv_rows path (csv_file fs') = ret rows)
      by (rewrite Ec; exact R).
    rewrite (@main_unfold now path fs' rows block h1 rows1 _ R' B I).
    destruct (str_eqb (pre ++ section_of block ++ post) (read_readme fs'))
      eqn:E; cbn [negb]; [|rewrite Ec; reflexivity].
    apply str_eqb_eq in E. exfalso. apply (@read_readme_no_cr fs').
    rewrite <- E. apply in_or_app. right. apply in_or_app. left.
    unfold section_of. apply in_or_app. right. apply in_or_app. right.
    apply in_or_app. left. exact Hc. }
  destruct (G fs eq_refl) as [new_text M]. exists new_text.
  split; [exact M|]. apply (G (mkFiles (csv_file fs) (Some new_text))).
  reflexivity.
Qed.

Lemma main_carriage_return_witness :
  exists new_text,
    main sample_now sample_path cr_files
    = ret (mkFiles (csv_file cr_files) (Some new_text),
           lit "README updated from CSV.")
    /\ exists new_text',
         main sample_now sample_path
           (mkFiles (csv_file cr_files) (Some new_text))
         = ret (mkFiles (csv_file cr_files) (Some new_text'),
                lit "README updated from CSV.").
Proof.
  eapply (@main_carriage_return sample_now sample_path cr_files
            (reader_rows cr_csv)).
  - vm_compute. reflexivity.
  - reflexivity.
  - vm_compute. repeat (first [left; reflexivity|right]).
Defined.

(** X18: a README that is missing is treated as an empty one: the run
    writes a newline, the section and a newline, and reports an update. *)
Theorem main_creates_readme (now : datetime) (path : str)
    (csv : option (list (list str))) (rows : list dict) (block : str)
    (h1 : heap) (rows1 : list loc) :
  read_csv_rows path csv = ret rows ->
  build_table now (alloc rows) (seq 0 (length rows)) = ret (block, h1, rows1) ->
  main now path (mkFiles csv None)
  = ret (mkFiles csv (Some (nl ++ section_of block ++ nl)),
         lit "README updated from CSV.")
  /\ main now path (mkFiles csv (Some []))
     = ret (mkFiles csv (Some (nl ++ section_of block ++ nl)),
            lit "README updated from CSV.").
Proof.
  intros R B.
  assert (I : insert_between_markers [] block START END
              = ret (nl ++ section_of block ++ nl)).
  { rewrite append_branch by reflexivity. reflexivity. }
  split.
  - rewrite (@main_unfold now path (mkFiles csv None) rows block h1 rows1
               (nl ++ section_of block ++ nl) R B I).
    reflexivity.
  - rewrite (@main_unfold now path (mkFiles csv (Some [])) rows block h1 rows1
               (nl ++ section_of block ++ nl) R B I).
    reflexivity.
Qed.

Lemma main_creates_readme_witness :
  exists block,
    main sample_now sample_path fresh_files
    = ret (mkFiles (Some sample_csv) (Some (nl ++ section_of block ++ nl)),
           lit "README updated from CSV.").
Proof.
  eexists.
  refine (proj1 (@main_creates_readme sample_now sample_path (Some sample_csv)
                   sample_records _ _ _ _ _)).
  - vm_compute. reflexivity.
  - reflexivity.
Defined.

(** ** Sort keys and dates *)

Lemma decimal2 (m : nat) :
  m < 100 -> m = 10 * ((m / 10) mod 10) + m mod 10.
Proof.
  intro H. pose proof (Nat.div_mod_eq m 10) as E.
  assert (L : m / 10 < 10) by (apply Nat.Div0.div_lt_upper_bound; lia).
  rewrite (Nat.mod_small (m / 10) 10) by exact L. exact E.
Qed.

Lemma decimal4 (y : nat) :
  y < 10 * 1000 ->
  y = 1000 * ((y / 1000) mod 10) + 100 * ((y / 100) mod 10)
      + 10 * ((y / 10) mod 10) + y mod 10.
Proof.
  intro H.
  pose proof (Nat.div_mod_eq y 10) as E0.
  pose proof (Nat.div_mod_eq (y / 10) 10) as E1.
  pose proof (Nat.div_mod_eq (y / 100) 10) as E2.
  assert (D1 : y / 10 / 10 = y / 100) by (rewrite Nat.Div0.div_div; reflexivity).
  assert (D2 : y / 100 / 10 = y / 1000)
    by (rewrite Nat.Div0.div_div; reflexivity).
  assert (L : y / 1000 < 10) by (apply Nat.Div0.div_lt_upper_bound; lia).
  rewrite (Nat.mod_small (y / 1000) 10) by exact L.
  rewrite D1 in E1. rewrite D2 in E2. lia.
Qed.

Lemma isdigit_digit (n : nat) : isdigit_char (digit n) = true.
Proof.
  unfold isdigit_char. rewrite code_digit.
  pose proof (Nat.mod_upper_bound n 10).
  assert (E1 : (48 <=? 48 + n mod 10) = true) by (apply Nat.leb_le; lia).
  assert (E2 : (48 + n mod 10 <=? 57) = true) by (apply Nat.leb_le; lia).
  rewrite E1, E2. reflexivity.
Qed.

Lemma month_text_shape (y m : nat) : year_month_shape (month_text y m).
Proof.
  exists (digit (y / 1000)), (digit (y / 100)), (digit (y / 10)), (digit y),
    (digit (m / 10)), (digit m).
  split; [reflexivity|]. cbn [forallb]. rewrite !isdigit_digit. reflexivity.
Qed.

Lemma normalize_year_text (y : nat) :
  normalize_date_for_sort (Some (year_text y)) = month_text y 12.
Proof.
  assert (S : strip (year_text y) = year_text y).
  { unfold strip, year_text, pad4. cbn [lstrip].
    rewrite (@digit_not_space _ (isdigit_digit _)).
    repeat (rewrite rstrip_cons by (apply digit_not_space, isdigit_digit)).
    reflexivity. }
  rewrite normalize_unfold. cbv zeta. cbn [or_empty]. rewrite S.
  assert (T : (length (year_text y) =? 4) && isdigit (year_text y) = true).
  { apply year_test.
    exists (digit (y / 1000)), (digit (y / 100)), (digit (y / 10)), (digit y).
    split; [reflexivity|]. cbn [forallb]. rewrite !isdigit_digit.
    reflexivity. }
  rewrite T. reflexivity.
Qed.

Lemma str_ltb_digit (a b : nat) (s t : str) :
  str_ltb (digit a :: s) (digit b :: t)
  = if a mod 10 <? b mod 10 then true
    else if b mod 10 <? a mod 10 then false
    else str_ltb s t.
Proof.
  cbn [str_ltb]. rewrite !code_digit.
  destruct (Nat.ltb_spec (a mod 10) (b mod 10));
    destruct (Nat.ltb_spec (48 + a mod 10) (48 + b mod 10));
    try lia; reflexivity.
Qed.

Lemma month_text_order (y1 m1 y2 m2 : nat) :
  y1 < 10 * 1000 -> y2 < 10 * 1000 -> m1 < 100 -> m2 < 100 ->
  (str_ltb (month_text y1 m1) (month_text y2 m2) = true
   <-> y1 < y2 \/ (y1 = y2 /\ m1 < m2)).
Proof.
  intros Hy1 Hy2 Hm1 Hm2.
  pose proof (@decimal4 _ Hy1) as Ey1. pose proof (@decimal4 _ Hy2) as Ey2.
  pose proof (@decimal2 _ Hm1) as Em1. pose proof (@decimal2 _ Hm2) as Em2.
  unfold month_text, pad4, pad2. cbn [app lit list_ascii_of_string].
  rewrite !str_ltb_digit.
  change (str_ltb ("-"%char :: digit (m1 / 10) :: [digit m1])
                  ("-"%char :: digit (m2 / 10) :: [digit m2]))
    with (str_ltb (digit (m1 / 10) :: [digit m1])
                  (digit (m2 / 10) :: [digit m2])).
  rewrite !str_ltb_digit. cbn [str_ltb].
  pose proof (Nat.mod_upper_bound (y1 / 1000) 10) as A3.
  pose proof (Nat.mod_upper_bound (y1 / 100) 10) as A2.
  pose proof (Nat.mod_upper_bound (y1 / 10) 10) as A1.
  pose proof (Nat.mod_upper_bound y1 10) as A0.
  pose proof (Nat.mod_upper_bound (y2 / 1000) 10) as B3.
  pose proof (Nat.mod_upper_bound (y2 / 100) 10) as B2.
  pose proof (Nat.mod_upper_bound (y2 / 10) 10) as B1.
  pose proof (Nat.mod_upper_bound y2 10) as B0.
  pose proof (Nat.mod_upper_bound (m1 / 10) 10) as C1.
  pose proof (Nat.mod_upper_bound m1 10) as C0.
  pose proof (Nat.mod_upper_bound (m2 / 10) 10) as D1.
  pose proof (Nat.mod_upper_bound m2 10) as D0.
  revert Ey1 Ey2 Em1 Em2 A3 A2 A1 A0 B3 B2 B1 B0 C1 C0 D1 D0.
  generalize ((y1 / 1000) mod 10) ((y1 / 100) mod 10) ((y1 / 10) mod 10)
    (y1 mod 10) ((y2 / 1000) mod 10) ((y2 / 100) mod 10) ((y2 / 10) mod 10)
    (y2 mod 10) ((m1 / 10) mod 10) (m1 mod 10) ((m2 / 10) mod 10) (m2 mod 10).
  intros a3 a2 a1 a0 b3 b2 b1 b0 c1 c0 e1 e0 Ey1 Ey2 Em1 Em2.
  intros A3 A2 A1 A0 B3 B2 B1 B0 C1 C0 D1 D0.
  repeat match goal with
         | |- context [?x <? ?y] => destruct (Nat.ltb_spec x y)
         end; split; intro Hgoal; try discriminate; try reflexivity; lia.
Qed.

(** X19: for years below 10000 and two-digit months the texts [YYYY-MM] are
    their own sort keys, a bare year [YYYY] has the key of its December,
    and one key is smaller than another exactly when its year and month are
    earlier. *)
Theorem date_keys_chronological (y1 m1 y2 m2 : nat) :
  y1 < 10 * 1000 -> y2 < 10 * 1000 -> m1 < 100 -> m2 < 100 ->
  normalize_date_for_sort (Some (month_text y1 m1)) = month_text y1 m1
  /\ normalize_date_for_sort (Some (year_text y1)) = month_text y1 12
  /\ (str_ltb (normalize_date_for_sort (Some (month_text y1 m1)))
              (normalize_date_for_sort (Some (month_text y2 m2))) = true
      <-> y1 < y2 \/ (y1 = y2 /\ m1 < m2)).
Proof.
  intros Hy1 Hy2 Hm1 Hm2.
  split; [apply normalize_of_key, month_text_shape|].
  split; [apply normalize_year_text|].
  rewrite !(@normalize_of_key _ (month_text_shape _ _)).
  apply month_text_order; assumption.
Qed.

Lemma date_keys_chronological_witness :
  normalize_date_for_sort (Some (lit "2021-03")) = lit "2021-03"
  /\ normalize_date_for_sort (Some (lit "2021")) = lit "2021-12"
  /\ (str_ltb (normalize_date_for_sort (Some (lit "2021-03")))
              (normalize_date_for_sort (Some (lit "2023-05"))) = true
      <-> 2021 < 2023 \/ (2021 = 2023 /\ 3 < 5)).
Proof.
  apply (@date_keys_chronological 2021 3 2023 5); lia.
Defined.

(** ** The flags of the entry point *)

Lemma main_cli_loaded (now : datetime) (a : args) (fs : files)
    (rows : list dict) :
  read_csv_rows (csv_arg a) (csv_file fs) = ret rows ->
  exists block h1 rows1 new_text,
    build_table now (alloc rows) (seq 0 (length rows)) = ret (block, h1, rows1)
    /\ insert_between_markers (read_readme fs) block START END = ret new_text
    /\ main_cli now a fs
       = if dry_run a
         then (verbose_paths a ++ verbose_rows a rows
               ++ [banner_start; block; banner_end], ret fs)
         else if negb (str_eqb new_text (read_readme fs))
         then (verbose_paths a ++ verbose_rows a rows
               ++ [lit "README updated from CSV."],
               ret (mkFiles (csv_file fs) (Some new_text)))
         else (verbose_paths a ++ verbose_rows a rows
               ++ [lit "No README changes detected."], ret fs).
Proof.
  intro R.
  destruct (insert_default_total
              (read_readme fs)
              (join nl ((header :: map (fun r => render_row (alloc rows r))
                                       (sort_by (sort_key (alloc rows))
                                                (seq 0 (length rows))))
                        ++ [footer now])))
    as (pre & post & I).
  eexists. eexists. eexists. eexists.
  split; [apply build_table_eq|]. split; [exact I|].
  unfold main_cli. rewrite R. unfold ret at 1. cbv beta iota zeta.
  rewrite build_table_eq. unfold ret at 1. cbv beta iota.
  rewrite <- !app_assoc.
  destruct (dry_run a); [reflexivity|].
  rewrite I. unfold ret at 1. cbv beta iota.
  match goal with |- context [negb ?t] => destruct (negb t) end; reflexivity.
Qed.

(** X20: with [--dry-run] the run writes no file and does not look at the
    README; when the CSV loads it prints the block between the two
    banners, after the lines of [--verbose]. *)
Theorem main_cli_dry_run (now : datetime) (a : args) (fs : files) :
  dry_run a = true ->
  (forall fs1, snd (main_cli now a fs) = ret fs1 -> fs1 = fs)
  /\ (forall readme,
        fst (main_cli now a (mkFiles (csv_file fs) readme))
        = fst (main_cli now a fs))
  /\ (forall rows,
        read_csv_rows (csv_arg a) (csv_file fs) = ret rows ->
        exists block h1 rows1,
          build_table now (alloc rows) (seq 0 (length rows))
          = ret (block, h1, rows1)
          /\ main_cli now a fs
             = (verbose_paths a ++ verbose_rows a rows
                ++ [banner_start; block; banner_end], ret fs)).
Proof.
  intro D.
  destruct (read_csv_rows (csv_arg a) (csv_file fs)) as [e | rows] eqn:R.
  - split; [|split].
    + intros fs1 H. unfold main_cli in H. rewrite R in H. discriminate H.
    + intro readme. unfold main_cli. cbn [csv_file]. rewrite R. reflexivity.
    + intros rows H. discriminate H.
  - destruct (main_cli_loaded now a fs R) as (block & h1 & rows1 & t & B & _ & M).
    rewrite D in M. split; [|split].
    + intros fs1 H. rewrite M in H. injection H as <-. reflexivity.
    + intro readme.
      destruct (main_cli_loaded now a (mkFiles (csv_file fs) readme) R)
        as (block' & h1' & rows1' & t' & B' & _ & M').
      rewrite D in M'. rewrite M, M'. cbn [fst].
      rewrite B in B'. injection B' as <- _ _. reflexivity.
    + intros rows' H. injection H as <-. exists block, h1, rows1.
      split; [exact B|exact M].
Qed.

Lemma main_cli_dry_run_witness :
  exists block h1 rows1,
    build_table sample_now (alloc sample_records)
      (seq 0 (length sample_records)) = ret (block, h1, rows1)
    /\ main_cli sample_now sample_args fresh_files
       = (verbose_paths sample_args ++ verbose_rows sample_args sample_records
          ++ [banner_start; block; banner_end], ret fresh_files).
Proof.
  apply (proj2 (proj2 (@main_cli_dry_run sample_now sample_args fresh_files
                         eq_refl))).
  vm_compute. reflexivity.
Defined.

(** X21: [--verbose] changes no file and no error; it only puts its lines
    before those that the run prints without it. *)
Theorem main_cli_verbose (now : datetime) (a : args) (fs : files) :
  snd (main_cli now a fs) = snd (main_cli now (quiet a) fs)
  /\ exists extra,
       fst (main_cli now a fs) = extra ++ fst (main_cli now (quiet a) fs).
Proof.
  destruct (read_csv_rows (csv_arg a) (csv_file fs)) as [e | rows] eqn:R.
  - unfold main_cli. cbn [csv_arg quiet]. rewrite R. cbn [fst snd].
    split; [reflexivity|]. exists (verbose_paths a).
    unfold verbose_paths at 2. cbn [verbose quiet]. rewrite app_nil_r.
    reflexivity.
  - destruct (main_cli_loaded now a fs R)
      as (block & h1 & rows1 & t & B & I & M).
    destruct (main_cli_loaded now (quiet a) fs R)
      as (block' & h1' & rows1' & t' & B' & I' & M').
    rewrite B in B'.
    pose proof (f_equal (fun x : res (str * heap * list loc) =>
                           match x with inr (b, _, _) => b | inl _ => [] end)
                  B') as Eb.
    cbv beta iota delta [ret] in Eb. subst block'.
    rewrite I in I'. injection I' as <-.
    rewrite M, M'. cbn [dry_run quiet].
    unfold verbose_paths at 4 5 6, verbose_rows at 4 5 6. cbn [verbose quiet app].
    destruct (dry_run a); cbn [fst snd].
    + split; [reflexivity|].
      exists (verbose_paths a ++ verbose_rows a rows).
      rewrite <- app_assoc. reflexivity.
    + match goal with |- context [negb ?c] => destruct (negb c) end;
        cbn [fst snd]; (split; [reflexivity|]);
        exists (verbose_paths a ++ verbose_rows a rows);
        rewrite <- app_assoc; reflexivity.
Qed.

(** ** More instances *)

Lemma esc_plain_witness :
  ~ In (chr 124) (or_empty (Some (lit " a b ")))
  /\ esc (Some (lit " a b ")) = strip (lit " a b ").
Proof.
  assert (H : ~ In (chr 124) (or_empty (Some (lit " a b ")))).
  { intro H. vm_compute in H. intuition discriminate. }
  split; [exact H|]. exact (proj1 (esc_plain (Some (lit " a b "))) H).
Defined.

